(** * Suppressions: a shallow embedding of lib/suppressions.cpp

    The suppression filter of Cppcheck: rules are read from a line format
    or from an XML document, validated and appended to a list, and every
    diagnostic is then tested against that list.

    The embedding follows the C++ source function by function.  A
    [std::string] is a [string] of 8-bit characters, an [int] is a [Z]
    kept inside the 32-bit range by the operations that produce it, the
    member [_suppressions] is a [list], and a member function that mutates
    its object returns the new object next to its result. *)

From Stdlib Require Import ZArith String Ascii List Bool Arith Lia.
From stdpp Require Import base list.
Import ListNotations.

Local Open Scope string_scope.
Local Open Scope list_scope.

(** ** Characters ([<cctype>], "C" locale) *)

Definition NUL : ascii := Ascii.zero.
Definition newline : ascii := ascii_of_nat 10.
Definition dquote : ascii := ascii_of_nat 34.

Definition in_range (lo hi : nat) (c : ascii) : bool :=
  (lo <=? nat_of_ascii c)%nat && (nat_of_ascii c <=? hi)%nat.

Definition isdigit (c : ascii) : bool := in_range 48 57 c.
Definition isupper (c : ascii) : bool := in_range 65 90 c.
Definition islower (c : ascii) : bool := in_range 97 122 c.
Definition isalpha (c : ascii) : bool := isupper c || islower c.
Definition isalnum (c : ascii) : bool := isalpha c || isdigit c.

(** space, and the control characters from horizontal tab to carriage
    return *)
Definition isspace (c : ascii) : bool :=
  (nat_of_ascii c =? 32)%nat || in_range 9 13 c.

(** [c < 0] for a plain [char]: the bytes from 128 up read as negative. *)
Definition char_lt_0 (c : ascii) : bool := (128 <=? nat_of_ascii c)%nat.

(** ** The [std::string] members the source calls *)

Module StdString.

Definition empty (s : string) : bool :=
  match s with EmptyString => true | String _ _ => false end.

(** [s.compare(0, t.size(), t) == 0] *)
Fixpoint starts_with (t s : string) : bool :=
  match t, s with
  | EmptyString, _ => true
  | String _ _, EmptyString => false
  | String a t', String b s' => Ascii.eqb a b && starts_with t' s'
  end.

(** [s.find(t)]; [None] is [npos]. *)
Fixpoint find (s t : string) : option nat :=
  if starts_with t s then Some 0%nat
  else match s with
       | EmptyString => None
       | String _ s' => option_map S (find s' t)
       end.

(** [s.substr(pos)] for [pos <= s.size()] *)
Fixpoint substr (s : string) (pos : nat) : string :=
  match pos, s with
  | O, _ => s
  | S _, EmptyString => EmptyString
  | S pos', String _ s' => substr s' pos'
  end.

(** [s.erase(pos)]: the first [pos] characters remain. *)
Fixpoint erase (s : string) (pos : nat) : string :=
  match pos, s with
  | O, _ => EmptyString
  | S _, EmptyString => EmptyString
  | S pos', String a s' => String a (erase s' pos')
  end.

(** [s.find(c)] *)
Fixpoint find_char0 (s : string) (c : ascii) : option nat :=
  match s with
  | EmptyString => None
  | String a s' =>
      if Ascii.eqb a c then Some 0%nat else option_map S (find_char0 s' c)
  end.

(** [s.find(c, pos)] *)
Definition find_char (s : string) (c : ascii) (pos : nat) : option nat :=
  option_map (Nat.add pos) (find_char0 (substr s pos) c).

(** [s.rfind(c)] *)
Fixpoint rfind_char (s : string) (c : ascii) : option nat :=
  match s with
  | EmptyString => None
  | String a s' =>
      match rfind_char s' c with
      | Some i => Some (S i)
      | None => if Ascii.eqb a c then Some 0%nat else None
      end
  end.

(** [s + c] *)
Definition push_char (s : string) (c : ascii) : string :=
  (s ++ String c EmptyString)%string.

End StdString.

(** ** Integers *)

Definition INT_MAX : Z := 2147483647.
Definition INT_MIN : Z := -2147483648.
Definition LONG_MAX : Z := 9223372036854775807.
Definition LONG_MIN : Z := -9223372036854775808.

(** ** The data model

    The declarations of [Suppression] and [ErrorMessage] are in
    suppressions.h, which is not among the sources: the records have the
    members that suppressions.cpp reads and writes, a [std::string] for
    what it compares with strings and an [int] for the line numbers. *)

Module Suppression.
Record t : Type := mk {
  errorId : string;
  fileName : string;
  lineNumber : Z;
  symbolName : string;
  matched : bool
}.

(** Modelled from the spec: the default constructor of [Suppression]
    (suppressions.h is not among the sources).  Every field is "any":
    the strings are empty, [lineNumber] is 0, and [matched] is
    initially false. *)
Definition default : t :=
  {| errorId := EmptyString; fileName := EmptyString; lineNumber := 0%Z;
     symbolName := EmptyString; matched := false |}.

Definition set_errorId (v : string) (s : t) : t :=
  {| errorId := v; fileName := fileName s; lineNumber := lineNumber s;
     symbolName := symbolName s; matched := matched s |}.
Definition set_fileName (v : string) (s : t) : t :=
  {| errorId := errorId s; fileName := v; lineNumber := lineNumber s;
     symbolName := symbolName s; matched := matched s |}.
Definition set_lineNumber (v : Z) (s : t) : t :=
  {| errorId := errorId s; fileName := fileName s; lineNumber := v;
     symbolName := symbolName s; matched := matched s |}.
Definition set_symbolName (v : string) (s : t) : t :=
  {| errorId := errorId s; fileName := fileName s; lineNumber := lineNumber s;
     symbolName := v; matched := matched s |}.
Definition set_matched (v : bool) (s : t) : t :=
  {| errorId := errorId s; fileName := fileName s; lineNumber := lineNumber s;
     symbolName := symbolName s; matched := v |}.
End Suppression.

Module ErrorMessage.
Record t : Type := mk {
  errorId : string;
  fileName : string;
  lineNumber : Z;
  symbolNames : string
}.
End ErrorMessage.

(** The object: its only member is the list [_suppressions]. *)
Record Suppressions : Type := mkSuppressions {
  _suppressions : list Suppression.t
}.

(** ** [Suppressions::Suppression::isMatch]

    Returns the result and the rule after the call: [matched] is written
    only on the path that returns true. *)
Definition isMatch (s : Suppression.t) (errmsg : ErrorMessage.t)
  : bool * Suppression.t :=
  if negb (StdString.empty (Suppression.errorId s))
     && negb (String.eqb (Suppression.errorId s) (ErrorMessage.errorId errmsg))
  then (false, s)
  else if negb (StdString.empty (Suppression.fileName s))
          && negb (String.eqb (Suppression.fileName s) (ErrorMessage.fileName errmsg))
  then (false, s)
  else if (0 <? Suppression.lineNumber s)%Z
          && negb (Suppression.lineNumber s =? ErrorMessage.lineNumber errmsg)%Z
  then (false, s)
  else if negb (StdString.empty (Suppression.symbolName s))
          && match StdString.find (ErrorMessage.symbolNames errmsg)
                     (StdString.push_char (Suppression.symbolName s) newline) with
             | None => true
             | Some _ => false
             end
  then (false, s)
  else (true, Suppression.set_matched true s).

(** The range-for loop of [isSuppressed] over the list, by reference: the
    rules already visited are kept as they are, the first rule that
    matches is replaced by its marked version and the scan stops. *)
Fixpoint isSuppressed_loop (l : list Suppression.t) (errmsg : ErrorMessage.t)
  : bool * list Suppression.t :=
  match l with
  | [] => (false, [])
  | s :: rest =>
      let '(r, s') := isMatch s errmsg in
      if r then (true, s' :: rest)
      else let '(r', rest') := isSuppressed_loop rest errmsg in
           (r', s' :: rest')
  end.

(** ** [Suppressions::isSuppressed] *)
Definition isSuppressed (this : Suppressions) (errmsg : ErrorMessage.t)
  : bool * Suppressions :=
  let '(r, l) := isSuppressed_loop (_suppressions this) errmsg in
  (r, mkSuppressions l).

(** ** [Suppressions::isSuppressedLocal] *)
Fixpoint isSuppressedLocal_loop (l : list Suppression.t) (errmsg : ErrorMessage.t)
  : bool * list Suppression.t :=
  match l with
  | [] => (false, [])
  | s :: rest =>
      let '(r, s') := isMatch s errmsg in
      if r then (true, s' :: rest)
      else let '(r', rest') := isSuppressedLocal_loop rest errmsg in
           (r', s' :: rest')
  end.

Definition isSuppressedLocal (this : Suppressions) (errmsg : ErrorMessage.t)
  : bool * Suppressions :=
  let '(r, l) := isSuppressedLocal_loop (_suppressions this) errmsg in
  (r, mkSuppressions l).

(** ** [Suppressions::addSuppression] *)

Definition no_id_message : string := "Failed to add suppression. No id.".

(** The message for an id that is not valid: the id between double
    quotes after the words below. *)
Definition invalid_id_message (id : string) : string :=
  ("Failed to add suppression. Invalid id "
     ++ String dquote (id ++ String dquote EmptyString))%string.

(** The [for] loop over the positions of [errorId]: [chars] is what is
    left of the id from position [pos] on.  The result is true when one of
    the two [return] statements inside the loop is reached. *)
Fixpoint addSuppression_rejects (pos : nat) (chars : string) : bool :=
  match chars with
  | EmptyString => false
  | String c chars' =>
      if char_lt_0 c || (negb (isalnum c) && negb (Ascii.eqb c "_"))
      then true
      else if (pos =? 0)%nat && isdigit c
      then true
      else addSuppression_rejects (S pos) chars'
  end.

Definition push_back (s : Suppression.t) (this : Suppressions) : Suppressions :=
  mkSuppressions (_suppressions this ++ [s]).

Definition addSuppression (suppression : Suppression.t) (this : Suppressions)
  : string * Suppressions :=
  if StdString.empty (Suppression.errorId suppression)
  then (no_id_message, this)
  else if negb (String.eqb (Suppression.errorId suppression) "*")
          && addSuppression_rejects 0 (Suppression.errorId suppression)
  then (invalid_id_message (Suppression.errorId suppression), this)
  else (EmptyString, push_back suppression this).

(** ** String streams *)

Module IStringStream.

Record t : Type := mk { buf : string; eofbit : bool; failbit : bool }.

Definition of_string (s : string) : t := mk s false false.

Definition good (istr : t) : bool := negb (eofbit istr) && negb (failbit istr).

(** The characters before the first [delim], and what follows it;
    [None] when the end of the buffer comes first. *)
Fixpoint read_until (delim : ascii) (s : string) : string * option string :=
  match s with
  | EmptyString => (EmptyString, None)
  | String c s' =>
      if Ascii.eqb c delim then (EmptyString, Some s')
      else let '(line, rest) := read_until delim s' in (String c line, rest)
  end.

(** [std::getline(istr, str, delim)]: the result of the conversion of the
    stream to [bool], the string and the stream after the call.  A
    stream that is not good leaves [str] alone; a good one erases it
    first, and fails when nothing at all is extracted. *)
Definition getline (istr : t) (str : string) (delim : ascii)
  : bool * string * t :=
  if good istr then
    match read_until delim (buf istr) with
    | (line, Some rest) => (true, line, mk rest false false)
    | (line, None) =>
        if StdString.empty line
        then (false, EmptyString, mk EmptyString true true)
        else (true, line, mk EmptyString true false)
    end
  else (false, str, mk (buf istr) (eofbit istr) true).

Fixpoint skipws (s : string) : string :=
  match s with
  | String c s' => if isspace c then skipws s' else s
  | EmptyString => s
  end.

Definition digit_value (c : ascii) : Z := Z.of_nat (nat_of_ascii c - 48).

(** The value of the leading decimal digits of [s], continuing [acc],
    and how many there are. *)
Fixpoint digits (acc : Z) (count : nat) (s : string) : Z * nat :=
  match s with
  | String c s' =>
      if isdigit c then digits (10 * acc + digit_value c)%Z (S count) s'
      else (acc, count)
  | EmptyString => (acc, count)
  end.

(** An optional sign and the digits after it: the number read, or
    [None] when there is no digit. *)
Definition signed_digits (s : string) : option Z :=
  let '(negative, body) :=
    match s with
    | String c s' =>
        if Ascii.eqb c "-" then (true, s')
        else if Ascii.eqb c "+" then (false, s')
        else (false, s)
    | EmptyString => (false, s)
    end in
  match digits 0 0 body with
  | (_, O) => None
  | (v, S _) => Some (if negative then - v else v)%Z
  end.

(** [std::istringstream istr1(s); istr1 >> v;] for an [int v]: the value
    of [v] after the extraction (it was [old] before), and whether the
    stream is still not failed.  Leading white space is skipped; when
    nothing is left the sentry fails and [v] is not written; a field
    without digits stores 0; a number outside of the range of [int]
    stores the nearest bound, [INT_MAX] or [INT_MIN] (C++11,
    istream.formatted.arithmetic).  All three set [failbit], and none
    throws: the stream has no exception mask. *)
Definition extract_int (s : string) (old : Z) : Z * bool :=
  match skipws s with
  | EmptyString => (old, false)
  | field =>
      match signed_digits field with
      | None => (0%Z, false)
      | Some v =>
          if (INT_MAX <? v)%Z then (INT_MAX, false)
          else if (v <? INT_MIN)%Z then (INT_MIN, false)
          else (v, true)
      end
  end.

End IStringStream.

(** ** [std::atoi]

    White space, an optional sign and decimal digits; 0 when there is no
    digit.  The C library computes [(int) strtol(s, NULL, 10)]: the number
    saturates at the bounds of [long] and the conversion to [int] keeps
    its low 32 bits. *)
Definition int_of_long (v : Z) : Z :=
  ((v + 2147483648) mod 4294967296 - 2147483648)%Z.

Definition strtol (s : string) : Z :=
  match IStringStream.signed_digits (IStringStream.skipws s) with
  | None => 0%Z
  | Some v => Z.max LONG_MIN (Z.min LONG_MAX v)
  end.

Definition atoi (s : string) : Z := int_of_long (strtol s).

(** ** [Path::fromNativeSeparators]

    Modelled from the spec: [Path::fromNativeSeparators] is declared in
    path.h, which is not among the sources.  It normalizes the path
    separators of a file name to the canonical form: every backslash
    becomes a forward slash. *)
Fixpoint fromNativeSeparators (path : string) : string :=
  match path with
  | EmptyString => EmptyString
  | String c path' =>
      String (if Ascii.eqb c "\" then "/"%char else c) (fromNativeSeparators path')
  end.

(** ** [Suppressions::addSuppressionLine] *)
Definition addSuppressionLine (line : string) (this : Suppressions)
  : string * Suppressions :=
  let lineStream := IStringStream.of_string line in
  let suppression := Suppression.default in
  let '(ok1, id, lineStream) :=
    IStringStream.getline lineStream (Suppression.errorId suppression) ":" in
  let suppression := Suppression.set_errorId id suppression in
  let suppression :=
    if ok1 then
      let '(ok2, file, _) :=
        IStringStream.getline lineStream (Suppression.fileName suppression) newline in
      let suppression := Suppression.set_fileName file suppression in
      if ok2 then
        match StdString.rfind_char file ":" with
        | Some pos =>
            match StdString.find_char file "." pos with
            | None =>
                let '(n, _) :=
                  IStringStream.extract_int (StdString.substr file (pos + 1))
                                            (Suppression.lineNumber suppression) in
                let suppression := Suppression.set_lineNumber n suppression in
                if (0 <? n)%Z
                then Suppression.set_fileName (StdString.erase file pos) suppression
                else suppression
            | Some _ => suppression
            end
        | None => suppression
        end
      else suppression
    else suppression in
  addSuppression
    (Suppression.set_fileName
       (fromNativeSeparators (Suppression.fileName suppression)) suppression)
    this.

(** ** [Suppressions::parseFile]

    The stream is the string of its content.  [getlines] is what the
    loop [while (std::getline(istr, line))] reads: the pieces between line
    feeds, a last piece only when it is not empty. *)
Fixpoint getlines (data : string) : list string :=
  match data with
  | EmptyString => []
  | String c data' =>
      if Ascii.eqb c newline then EmptyString :: getlines data'
      else match getlines data' with
           | [] => [String c EmptyString]
           | line :: lines => String c line :: lines
           end
  end.

(** [filedata += line + "\n"] for every line read *)
Fixpoint join_lines (lines : list string) : string :=
  match lines with
  | [] => EmptyString
  | line :: lines' => (StdString.push_char line newline ++ join_lines lines')%string
  end.

(** [std::replace(filedata.begin(), filedata.end(), '\r', '\n')] *)
Fixpoint replace_cr (data : string) : string :=
  match data with
  | EmptyString => EmptyString
  | String c data' =>
      String (if Ascii.eqb c (ascii_of_nat 13) then newline else c) (replace_cr data')
  end.

Definition is_comment_line (line : string) : bool :=
  match line with
  | String a (String b _) => Ascii.eqb a "/" && Ascii.eqb b "/"
  | _ => false
  end.

(** The second loop of [parseFile]: it returns at the first line that
    [addSuppressionLine] refuses. *)
Fixpoint parseFile_lines (lines : list string) (this : Suppressions)
  : string * Suppressions :=
  match lines with
  | [] => (EmptyString, this)
  | line :: lines' =>
      if StdString.empty line then parseFile_lines lines' this
      else if is_comment_line line then parseFile_lines lines' this
      else let '(errmsg, this') := addSuppressionLine line this in
           if negb (StdString.empty errmsg) then (errmsg, this')
           else parseFile_lines lines' this'
  end.

Definition parseFile (istr : string) (this : Suppressions)
  : string * Suppressions :=
  let filedata := replace_cr (join_lines (getlines istr)) in
  parseFile_lines (getlines filedata) this.

(** ** The part of tinyxml2 that [parseXmlFile] uses

    A node is a text, a comment or an element with its child nodes; a
    document is the list of its top-level nodes.  A pointer to an element
    is the element together with the siblings that follow it, and the
    null pointer is [None]. *)
Module tinyxml2.

Inductive XMLError : Type :=
| XML_SUCCESS
| XML_ERROR_FILE_NOT_FOUND
| XML_ERROR_FILE_COULD_NOT_BE_OPENED
| XML_ERROR_FILE_READ_ERROR
| XML_ERROR_EMPTY_DOCUMENT
| XML_ERROR_MISMATCHED_ELEMENT
| XML_ERROR_PARSING.

Definition XMLError_eqb (a b : XMLError) : bool :=
  match a, b with
  | XML_SUCCESS, XML_SUCCESS
  | XML_ERROR_FILE_NOT_FOUND, XML_ERROR_FILE_NOT_FOUND
  | XML_ERROR_FILE_COULD_NOT_BE_OPENED, XML_ERROR_FILE_COULD_NOT_BE_OPENED
  | XML_ERROR_FILE_READ_ERROR, XML_ERROR_FILE_READ_ERROR
  | XML_ERROR_EMPTY_DOCUMENT, XML_ERROR_EMPTY_DOCUMENT
  | XML_ERROR_MISMATCHED_ELEMENT, XML_ERROR_MISMATCHED_ELEMENT
  | XML_ERROR_PARSING, XML_ERROR_PARSING => true
  | _, _ => false
  end.

#[local] Unset Elimination Schemes.
Inductive XMLNode : Type :=
| XMLText (value : string)
| XMLComment (value : string)
| XMLElement (name : string) (children : list XMLNode).
#[local] Set Elimination Schemes.

Definition XMLDocument : Type := list XMLNode.

(** An [XMLElement*] that is not null. *)
Record element_ptr : Type := mk_ptr {
  Name : string;
  Children : list XMLNode;
  following : list XMLNode
}.

(** The first element of a list of sibling nodes. *)
Fixpoint first_element (nodes : list XMLNode) : option element_ptr :=
  match nodes with
  | [] => None
  | XMLElement name children :: rest => Some (mk_ptr name children rest)
  | _ :: rest => first_element rest
  end.

Definition FirstChildElement (e : element_ptr) : option element_ptr :=
  first_element (Children e).

Definition NextSiblingElement (e : element_ptr) : option element_ptr :=
  first_element (following e).

(** [XMLDocument::FirstChildElement]: the root element. *)
Definition RootElement (doc : XMLDocument) : option element_ptr :=
  first_element doc.

(** The text of the first child when that child is a text node. *)
Definition GetText (e : element_ptr) : option string :=
  match Children e with
  | XMLText value :: _ => Some value
  | _ => None
  end.

(** The child elements in document order: what a loop from
    [FirstChildElement] along [NextSiblingElement] visits. *)
Fixpoint elements (nodes : list XMLNode) : list element_ptr :=
  match nodes with
  | [] => []
  | XMLElement name children :: rest => mk_ptr name children rest :: elements rest
  | _ :: rest => elements rest
  end.

End tinyxml2.

(** What a call does: it returns, or it dereferences a null pointer. *)
Inductive outcome (A : Type) : Type :=
| Returns (a : A)
| NullDereference.
Arguments Returns {A} a.
Arguments NullDereference {A}.

(** [std::strcmp(a, b)] is compared with zero only. *)
Definition strcmp_is_zero (a b : string) : bool := String.eqb a b.

(** ** [Suppressions::parseXmlFile] *)

(** The body of the inner loop for one element [e2]. *)
Definition parseXmlFile_field (e2 : tinyxml2.element_ptr) (s : Suppression.t)
  : Suppression.t :=
  let text := match tinyxml2.GetText e2 with
              | Some value => value
              | None => EmptyString
              end in
  if strcmp_is_zero (tinyxml2.Name e2) "id"
  then Suppression.set_errorId text s
  else if strcmp_is_zero (tinyxml2.Name e2) "fileName"
  then Suppression.set_fileName text s
  else if strcmp_is_zero (tinyxml2.Name e2) "lineNumber"
  then Suppression.set_lineNumber (atoi text) s
  else if strcmp_is_zero (tinyxml2.Name e2) "symbolName"
  then Suppression.set_symbolName text s
  else s.

(** The inner loop: [nodes] are the siblings from the loop variable
    [e2] on. *)
Fixpoint parseXmlFile_inner (nodes : list tinyxml2.XMLNode) (s : Suppression.t)
  : Suppression.t :=
  match nodes with
  | [] => s
  | tinyxml2.XMLElement name children :: rest =>
      parseXmlFile_inner rest
        (parseXmlFile_field (tinyxml2.mk_ptr name children rest) s)
  | _ :: rest => parseXmlFile_inner rest s
  end.

(** The outer loop over the children of the root.  The condition is
    [std::strcmp(e->Name(), "suppress")], true when the names differ; the
    result of [addSuppression] is dropped. *)
Fixpoint parseXmlFile_outer (nodes : list tinyxml2.XMLNode) (this : Suppressions)
  : Suppressions :=
  match nodes with
  | [] => this
  | tinyxml2.XMLElement name children :: rest =>
      if negb (strcmp_is_zero name "suppress")
      then let s := parseXmlFile_inner children Suppression.default in
           parseXmlFile_outer rest (snd (addSuppression s this))
      else parseXmlFile_outer rest this
  | _ :: rest => parseXmlFile_outer rest this
  end.

Section ParseXmlFile.

(** [doc.LoadFile(filename)]: the error code and the document read,
    as the file system and tinyxml2 give them for a file name. *)
Variable LoadFile : string -> tinyxml2.XMLError * tinyxml2.XMLDocument.

Definition parseXmlFile (filename : string) (this : Suppressions)
  : outcome (string * Suppressions) :=
  let '(error, doc) := LoadFile filename in
  if tinyxml2.XMLError_eqb error tinyxml2.XML_ERROR_FILE_NOT_FOUND
  then Returns ("File not found", this)
  else match tinyxml2.RootElement doc with
       | None => NullDereference
       | Some rootnode =>
           Returns (EmptyString,
                    parseXmlFile_outer (tinyxml2.Children rootnode) this)
       end.

End ParseXmlFile.

(** ** [matchglob] *)

(** [s.c_str()] as the loops below read it: up to the first NUL. *)
Fixpoint c_str (s : string) : string :=
  match s with
  | EmptyString => EmptyString
  | String c s' => if Ascii.eqb c NUL then EmptyString else String c (c_str s')
  end.

(** [*p] *)
Definition deref (p : string) : ascii :=
  match p with
  | EmptyString => NUL
  | String c _ => c
  end.

(** [p + 1], for [p] not at the terminator *)
Definition next (p : string) : string :=
  match p with
  | EmptyString => EmptyString
  | String _ p' => p'
  end.

(** [while ( *n != '\0' && *n != c) n++;] *)
Fixpoint step_forward (c : ascii) (n : string) : string :=
  match n with
  | EmptyString => n
  | String a n' => if Ascii.eqb a c then n else step_forward c n'
  end.

Definition backtrack_stack : Type := list (string * string).

(** The loop [while ( *p != '\0' && matching)]: the values of [matching]
    and [n] and the stack when it ends. *)
Fixpoint matchglob_scan (p n : string) (backtrack : backtrack_stack)
  : bool * string * backtrack_stack :=
  match p with
  | EmptyString => (true, n, backtrack)
  | String c p' =>
      if Ascii.eqb c "*" then
        let n1 := step_forward (deref p') n in
        let backtrack1 :=
          if negb (Ascii.eqb (deref n1) NUL) then (p, n1) :: backtrack
          else backtrack in
        matchglob_scan p' n1 backtrack1
      else if Ascii.eqb c "?" then
        if negb (Ascii.eqb (deref n) NUL) then matchglob_scan p' (next n) backtrack
        else (false, n, backtrack)
      else
        if Ascii.eqb (deref n) c then matchglob_scan p' (next n) backtrack
        else (false, n, backtrack)
  end.

(** The loop [for (;;)], with a bound on the number of rounds: [None]
    when the bound is reached before the function returns. *)
Fixpoint matchglob_loop (rounds : nat) (p n : string) (backtrack : backtrack_stack)
  : option bool :=
  match rounds with
  | O => None
  | S rounds' =>
      let '(matching, n1, backtrack1) := matchglob_scan p n backtrack in
      if matching && Ascii.eqb (deref n1) NUL then Some true
      else match backtrack1 with
           | [] => Some false
           | (p0, n0) :: backtrack2 => matchglob_loop rounds' p0 (next n0) backtrack2
           end
  end.

Definition matchglob_within (rounds : nat) (pattern name : string) : option bool :=
  matchglob_loop rounds (c_str pattern) (c_str name) [].

(** The number of ['*'] in a pattern. *)
Fixpoint stars (p : string) : nat :=
  match p with
  | EmptyString => 0
  | String c p' => if Ascii.eqb c "*" then S (stars p') else stars p'
  end.

(** A number of rounds that [for (;;)] never exceeds (shown below as
    [matchglob_loop_returns]). *)
Definition matchglob_rounds (pattern name : string) : nat :=
  S (String.length (c_str name)) ^ stars (c_str pattern).

Definition matchglob_result (pattern name : string) : option bool :=
  matchglob_within (matchglob_rounds pattern name) pattern name.

Definition matchglob (pattern name : string) : bool :=
  match matchglob_result pattern name with
  | Some result => result
  | None => false
  end.

(** The measure behind [matchglob_rounds].  With [B] one more than the
    length of the name, a saved pair weighs the length of its name
    position times [B] to the number of stars after its pattern position;
    [scan_budget] bounds the weight that one run of the inner loop can
    add. *)
Definition entry_weight (B : nat) (e : string * string) : nat :=
  String.length (snd e) * B ^ (stars (fst e) - 1).

Fixpoint potential (B : nat) (backtrack : backtrack_stack) : nat :=
  match backtrack with
  | [] => 0
  | e :: backtrack' => entry_weight B e + potential B backtrack'
  end.

Definition scan_budget (B : nat) (p : string) (k : nat) : nat :=
  match stars p with
  | O => 0
  | S r => (k + 1) * B ^ r - 1
  end.

(** What holds for every saved pair: the pattern position is at a star,
    the name position is not at the end. *)
Definition entry_ok (L : nat) (e : string * string) : Prop :=
  (exists p', fst e = String "*" p')
  /\ (1 <= String.length (snd e))%nat /\ (String.length (snd e) <= L)%nat.

Definition stack_ok (L : nat) (backtrack : backtrack_stack) : Prop :=
  Forall (entry_ok L) backtrack.

(** ** Notions of the specification *)

(** [t] occurs in [s] as a substring. *)
Definition occurs_in (t s : string) : Prop :=
  exists pre post : string, s = (pre ++ t ++ post)%string.

(** The symbol list of a diagnostic: [symbolNames] is a concatenation of
    tokens, each followed by a line feed.  [cur] is the token being read;
    a tail without its line feed is not an entry. *)
Fixpoint symbol_entries_from (cur names : string) : list string :=
  match names with
  | EmptyString => []
  | String c names' =>
      if Ascii.eqb c newline then cur :: symbol_entries_from EmptyString names'
      else symbol_entries_from (StdString.push_char cur c) names'
  end.

Definition symbol_entries (names : string) : list string :=
  symbol_entries_from EmptyString names.

(** The identifiers [[A-Za-z_][A-Za-z0-9_]*]. *)
Definition letters_and_underscore : string :=
  "ABCDEFGHIJKLMNOPQRSTUVWXYZabcdefghijklmnopqrstuvwxyz_".
Definition decimal_digits : string := "0123456789".

Fixpoint char_in (c : ascii) (set : string) : bool :=
  match set with
  | EmptyString => false
  | String a set' => Ascii.eqb c a || char_in c set'
  end.

Definition identifier_start (c : ascii) : bool := char_in c letters_and_underscore.
Definition identifier_char (c : ascii) : bool :=
  char_in c letters_and_underscore || char_in c decimal_digits.

Fixpoint all_chars (f : ascii -> bool) (s : string) : bool :=
  match s with
  | EmptyString => true
  | String c s' => f c && all_chars f s'
  end.

Definition is_identifier (s : string) : bool :=
  match s with
  | EmptyString => false
  | String c s' => identifier_start c && all_chars identifier_char s'
  end.

(** The ids [addSuppression] is specified to accept. *)
Definition acceptable_id (id : string) : Prop :=
  id = "*" \/ is_identifier id = true.

(** ** Sample data *)

Definition nl : string := String newline EmptyString.

Definition no_suppressions : Suppressions := mkSuppressions [].

(** The rule with every field "any" in the sense of the data model:
    [errorId] is ["*"]. *)
Definition any_rule : Suppression.t :=
  Suppression.set_errorId "*" Suppression.default.

Definition nullPointer_a_c_5 : ErrorMessage.t :=
  {| ErrorMessage.errorId := "nullPointer"; ErrorMessage.fileName := "a.c";
     ErrorMessage.lineNumber := 5%Z; ErrorMessage.symbolNames := EmptyString |}.

Definition rule_for_symbol (name : string) : Suppression.t :=
  Suppression.set_symbolName name
    (Suppression.set_errorId "nullPointer" Suppression.default).

Definition diagnostic_with_symbols (names : string) : ErrorMessage.t :=
  {| ErrorMessage.errorId := "nullPointer"; ErrorMessage.fileName := "a.c";
     ErrorMessage.lineNumber := 5%Z; ErrorMessage.symbolNames := names |}.

Definition text_element (name text : string) : tinyxml2.XMLNode :=
  tinyxml2.XMLElement name [tinyxml2.XMLText text].

(** [<suppressions>
       <suppress><id>uninitvar</id></suppress>
       <rule><id>1bad</id><fileName>a.c</fileName></rule>
     </suppressions>] *)
Definition dropped_rules_document : tinyxml2.XMLDocument :=
  [ tinyxml2.XMLElement "suppressions"
      [ tinyxml2.XMLElement "suppress" [ text_element "id" "uninitvar" ];
        tinyxml2.XMLElement "rule"
          [ text_element "id" "1bad"; text_element "fileName" "a.c" ] ] ].

(** A file system in which every file holds [doc]. *)
Definition loads (error : tinyxml2.XMLError) (doc : tinyxml2.XMLDocument)
  : string -> tinyxml2.XMLError * tinyxml2.XMLDocument :=
  fun _ => (error, doc).

(** [<suppressions>
       <suppress><id>skipped</id></suppress>
       <!-- a comment -->
       <entry>
         <id>uninitvar</id><fileName>foo.c</fileName>
         <lineNumber>10</lineNumber><symbolName>x</symbolName>
       </entry>
     </suppressions>] *)
Definition sample_document : tinyxml2.XMLDocument :=
  [ tinyxml2.XMLComment "suppression rules";
    tinyxml2.XMLElement "suppressions"
      [ tinyxml2.XMLElement "suppress" [ text_element "id" "skipped" ];
        tinyxml2.XMLComment "a comment";
        tinyxml2.XMLElement "entry"
          [ text_element "id" "uninitvar"; text_element "fileName" "foo.c";
            text_element "lineNumber" "10"; text_element "symbolName" "x" ] ] ].

Definition sample_root : tinyxml2.element_ptr :=
  match tinyxml2.RootElement sample_document with
  | Some rootnode => rootnode
  | None => tinyxml2.mk_ptr EmptyString [] []
  end.

(** ** The XML parser in terms of the elements it visits *)

(** [e2->GetText() ? e2->GetText() : ""] *)
Definition text_of (e2 : tinyxml2.element_ptr) : string :=
  match tinyxml2.GetText e2 with
  | Some value => value
  | None => EmptyString
  end.

(** The text of the last element called [name] among [es], [init] when
    there is none. *)
Fixpoint last_text (name : string) (init : option string)
    (es : list tinyxml2.element_ptr) : option string :=
  match es with
  | [] => init
  | e2 :: es' =>
      last_text name
        (if String.eqb (tinyxml2.Name e2) name then Some (text_of e2) else init) es'
  end.

Definition or_else {A : Type} (o : option A) (a : A) : A :=
  match o with
  | Some v => v
  | None => a
  end.

(** The record that the sub-elements [es] of a child describe, starting
    from the record [s]. *)
Definition record_of (es : list tinyxml2.element_ptr) (s : Suppression.t)
  : Suppression.t :=
  {| Suppression.errorId := or_else (last_text "id" None es) (Suppression.errorId s);
     Suppression.fileName :=
       or_else (last_text "fileName" None es) (Suppression.fileName s);
     Suppression.lineNumber :=
       or_else (option_map atoi (last_text "lineNumber" None es))
               (Suppression.lineNumber s);
     Suppression.symbolName :=
       or_else (last_text "symbolName" None es) (Suppression.symbolName s);
     Suppression.matched := Suppression.matched s |}.

(** The record passed to [addSuppression] for the child [e] of the
    root. *)
Definition populated (e : tinyxml2.element_ptr) : Suppression.t :=
  record_of (tinyxml2.elements (tinyxml2.Children e)) Suppression.default.

Definition named_suppress (e : tinyxml2.element_ptr) : bool :=
  String.eqb (tinyxml2.Name e) "suppress".

(** [addSuppression] with its result dropped, one record after the
    other. *)
Definition add_all (records : list Suppression.t) (this : Suppressions)
  : Suppressions :=
  fold_left (fun this' s => snd (addSuppression s this')) records this.

(** The rule that a line describes: an id, a file name and a line
    number. *)
Definition line_rule (id file : string) (line : Z) : Suppression.t :=
  {| Suppression.errorId := id; Suppression.fileName := file;
     Suppression.lineNumber := line; Suppression.symbolName := EmptyString;
     Suppression.matched := false |}.

Definition colon : string := ":".

Definition nullPointer_rule : Suppression.t :=
  Suppression.set_errorId "nullPointer" Suppression.default.

Definition uninitvar_rule : Suppression.t :=
  Suppression.set_errorId "uninitvar" Suppression.default.

(** A line that [parseFile] skips: empty, or a comment. *)
Definition skipped_line (line : string) : Prop :=
  line = EmptyString \/ is_comment_line line = true.

(** Three lines: a comment, an empty line, a comment ended by a carriage
    return and a line feed. *)
Definition comments_only : string :=
  ("// suppressions" ++ nl ++ nl ++ "// none yet"
     ++ String (ascii_of_nat 13) nl)%string.

(** ** [getUnmatchedLocalSuppressions] and [getUnmatchedGlobalSuppressions]

    Both are [const], build an empty [result] and return it: the loops
    over the rules are commented out in the source. *)
Definition getUnmatchedLocalSuppressions (file : string)
    (unusedFunctionChecking : bool) (this : Suppressions) : list Suppression.t :=
  [].

Definition getUnmatchedGlobalSuppressions (unusedFunctionChecking : bool)
    (this : Suppressions) : list Suppression.t :=
  [].

(** ** What a glob pattern means

    The usual reading of a pattern, against which [matchglob] is
    compared: a star stands for any run of characters, a question mark for
    one character, and every other character for itself. *)
Inductive glob_match : string -> string -> Prop :=
| glob_end : glob_match EmptyString EmptyString
| glob_star_none (p n : string) :
    glob_match p n -> glob_match (String "*" p) n
| glob_star_more (p : string) (a : ascii) (n : string) :
    glob_match (String "*" p) n -> glob_match (String "*" p) (String a n)
| glob_question (p : string) (a : ascii) (n : string) :
    glob_match p n -> glob_match (String "?" p) (String a n)
| glob_literal (c : ascii) (p n : string) :
    Ascii.eqb c "*" = false -> Ascii.eqb c "?" = false ->
    glob_match p n -> glob_match (String c p) (String c n).

(** A character that is not a wild card. *)
Definition literal_char (c : ascii) : bool :=
  negb (Ascii.eqb c "*") && negb (Ascii.eqb c "?").

(** The patterns in which every star is the last character or stands
    before a character that is not a wild card. *)
Fixpoint anchored_stars (p : string) : bool :=
  match p with
  | EmptyString => true
  | String c p' =>
      (if Ascii.eqb c "*"
       then match p' with
            | EmptyString => true
            | String d _ => literal_char d
            end
       else true)
      && anchored_stars p'
  end.

(** No NUL among the characters: what [c_str] guarantees. *)
Definition no_nul (s : string) : Prop := char_in NUL s = false.

(** The invariants of the loops of [matchglob] for a pattern [P] and a
    name [N].  A position [(p, n)] is sound when a match from it on
    extends to a match of the whole; a saved pair stands for the position
    one character further in the name. *)
Definition sound_position (P N p n : string) : Prop :=
  no_nul p /\ no_nul n /\ (glob_match p n -> glob_match P N).

Definition sound_entry (P N : string) (e : string * string) : Prop :=
  sound_position P N (fst e) (next (snd e)).

(** What the search has in hand for a pattern with anchored stars: the
    pairs are positions of such a pattern, and [alternative] says that one
    of them still leads to a match. *)
Definition anchored_entry (e : string * string) : Prop :=
  anchored_stars (fst e) = true /\ no_nul (fst e) /\ no_nul (snd e).

Definition alternative (backtrack : backtrack_stack) : Prop :=
  exists e, In e backtrack /\ glob_match (fst e) (next (snd e)).

(** ** The rules a parser may append *)

Definition acceptable_idb (id : string) : bool :=
  String.eqb id "*" || is_identifier id.

Definition in_int_range (v : Z) : Prop := (INT_MIN <= v <= INT_MAX)%Z.

(** A rule as the line parser builds it: a valid id, no symbol name, not
    yet matched, and a line number that is an [int]. *)
Definition parsed_rule (s : Suppression.t) : Prop :=
  acceptable_id (Suppression.errorId s)
  /\ Suppression.symbolName s = EmptyString
  /\ Suppression.matched s = false
  /\ in_int_range (Suppression.lineNumber s).

(** Running [parseFile] on a second input when the first one gave no
    message. *)
Definition and_then (first : string * Suppressions)
    (second : Suppressions -> string * Suppressions) : string * Suppressions :=
  if StdString.empty (fst first) then second (snd first) else first.

Definition carriage_return : ascii := ascii_of_nat 13.

(** The same text with DOS line ends: a carriage return before every
    line feed. *)
Fixpoint crlf (data : string) : string :=
  match data with
  | EmptyString => EmptyString
  | String c data' =>
      if Ascii.eqb c newline
      then String carriage_return (String newline (crlf data'))
      else String c (crlf data')
  end.

(** Two lists of lines that the second loop of [parseFile] cannot tell
    apart, also after a character is put in front of their first line. *)
Definition same_lines (l1 l2 : list string) : Prop :=
  (l1 = [] /\ l2 = [])
  \/ exists (h : string) (t1 t2 : list string),
       l1 = h :: t1 /\ l2 = h :: t2
       /\ forall this : Suppressions, parseFile_lines t1 this = parseFile_lines t2 this.

(** The text with a line feed in the place of every carriage return,
    character by character. *)
Definition cr_as_lf (data : string) : string :=
  string_of_list_ascii
    (List.map (fun c => if Ascii.eqb c carriage_return then newline else c)
       (list_ascii_of_string data)).

(** * Properties *)

(** ** Strings *)

Lemma empty_iff (s : string) : StdString.empty s = true <-> s = EmptyString.
Proof. destruct s; simpl; split; congruence. Qed.

Lemma empty_false_iff (s : string) : StdString.empty s = false <-> s <> EmptyString.
Proof. destruct s; simpl; split; congruence. Qed.

Lemma append_empty_r (s : string) : (s ++ EmptyString)%string = s.
Proof. induction s as [|c s IH]; simpl; [reflexivity | now rewrite IH]. Qed.

Lemma append_assoc (a b c : string) :
  ((a ++ b) ++ c)%string = (a ++ (b ++ c))%string.
Proof. induction a as [|x a IH]; simpl; [reflexivity | now rewrite IH]. Qed.

Lemma starts_with_iff (t s : string) :
  StdString.starts_with t s = true <-> exists post, s = (t ++ post)%string.
Proof.
  revert s. induction t as [|a t IH]; intros s; simpl.
  - split; [intros _; now exists s | reflexivity].
  - destruct s as [|b s].
    + split; [discriminate | intros [post H]; discriminate].
    + rewrite andb_true_iff, Ascii.eqb_eq, IH. split.
      * intros [-> [post ->]]. now exists post.
      * intros [post H]. injection H as -> ->. split; [reflexivity | now exists post].
Qed.

Lemma find_unfold (s t : string) :
  StdString.find s t =
  if StdString.starts_with t s then Some 0%nat
  else match s with
       | EmptyString => None
       | String _ s' => option_map S (StdString.find s' t)
       end.
Proof. destruct s; reflexivity. Qed.

Lemma find_Some_occurs (s t : string) (i : nat) :
  StdString.find s t = Some i -> occurs_in t s.
Proof.
  revert i. induction s as [|a s IH]; intros i; rewrite find_unfold.
  - destruct (StdString.starts_with t EmptyString) eqn:E; [|discriminate].
    intros _. apply starts_with_iff in E as [post ->]. now exists EmptyString, post.
  - destruct (StdString.starts_with t (String a s)) eqn:E.
    + intros _. apply starts_with_iff in E as [post E]. exists EmptyString, post. exact E.
    + destruct (StdString.find s t) as [j|] eqn:F; [|discriminate].
      intros _. destruct (IH j eq_refl) as (pre & post & ->).
      now exists (String a pre), post.
Qed.

Lemma occurs_find (s t : string) :
  occurs_in t s -> exists i, StdString.find s t = Some i.
Proof.
  intros (pre & post & ->). induction pre as [|a pre IH]; rewrite find_unfold.
  - simpl. replace (StdString.starts_with t (t ++ post)) with true; [now exists 0%nat|].
    symmetry. apply starts_with_iff. now exists post.
  - destruct (StdString.starts_with t _); [now exists 0%nat|].
    simpl. destruct IH as [i ->]. now exists (S i).
Qed.

Lemma find_None_iff (s t : string) :
  StdString.find s t = None <-> ~ occurs_in t s.
Proof.
  split.
  - intros H Hocc. apply occurs_find in Hocc as [i Hi]. congruence.
  - intros H. destruct (StdString.find s t) as [i|] eqn:E; [|reflexivity].
    exfalso. apply H. eapply find_Some_occurs; eassumption.
Qed.

(** ** [isMatch] *)

Lemma isMatch_false_unchanged (s : Suppression.t) (d : ErrorMessage.t) :
  fst (isMatch s d) = false -> isMatch s d = (false, s).
Proof.
  unfold isMatch.
  repeat match goal with |- context [if ?b then _ else _] => destruct b end;
    simpl; congruence.
Qed.

Lemma isMatch_true_marks (s : Suppression.t) (d : ErrorMessage.t) :
  fst (isMatch s d) = true -> isMatch s d = (true, Suppression.set_matched true s).
Proof.
  unfold isMatch.
  repeat match goal with |- context [if ?b then _ else _] => destruct b end;
    simpl; congruence.
Qed.

Lemma isMatch_cases (s : Suppression.t) (d : ErrorMessage.t) :
  isMatch s d = (false, s) \/ isMatch s d = (true, Suppression.set_matched true s).
Proof.
  destruct (fst (isMatch s d)) eqn:E;
    [right; now apply isMatch_true_marks | left; now apply isMatch_false_unchanged].
Qed.

Lemma isMatch_fst (s : Suppression.t) (d : ErrorMessage.t) :
  fst (isMatch s d) =
  (StdString.empty (Suppression.errorId s)
   || String.eqb (Suppression.errorId s) (ErrorMessage.errorId d))
  && (StdString.empty (Suppression.fileName s)
      || String.eqb (Suppression.fileName s) (ErrorMessage.fileName d))
  && (negb (0 <? Suppression.lineNumber s)%Z
      || (Suppression.lineNumber s =? ErrorMessage.lineNumber d)%Z)
  && (StdString.empty (Suppression.symbolName s)
      || match StdString.find (ErrorMessage.symbolNames d)
                 (StdString.push_char (Suppression.symbolName s) newline) with
         | Some _ => true
         | None => false
         end).
Proof.
  unfold isMatch.
  destruct (StdString.empty (Suppression.errorId s)),
           (String.eqb (Suppression.errorId s) (ErrorMessage.errorId d)),
           (StdString.empty (Suppression.fileName s)),
           (String.eqb (Suppression.fileName s) (ErrorMessage.fileName d)),
           (0 <? Suppression.lineNumber s)%Z,
           (Suppression.lineNumber s =? ErrorMessage.lineNumber d)%Z,
           (StdString.empty (Suppression.symbolName s)),
           (StdString.find (ErrorMessage.symbolNames d)
              (StdString.push_char (Suppression.symbolName s) newline));
    reflexivity.
Qed.

Lemma find_is_Some_iff (s t : string) :
  match StdString.find s t with Some _ => true | None => false end = true
  <-> occurs_in t s.
Proof.
  destruct (StdString.find s t) as [i|] eqn:E.
  - split; [intros _; eapply find_Some_occurs; eassumption | reflexivity].
  - split; [discriminate | intros H; apply find_None_iff in E; contradiction].
Qed.

(** C5. [isMatch] returns true exactly when the four constraints hold
    together: the id of the rule is empty or equal to the id of the
    diagnostic, the file name is empty or equal to the file name of the
    diagnostic, the line number is not positive or equal to the line of the
    diagnostic, and the symbol name is empty or, followed by a line feed,
    a substring of the symbol names of the diagnostic. *)
Theorem isMatch_iff (s : Suppression.t) (d : ErrorMessage.t) :
  fst (isMatch s d) = true <->
  (Suppression.errorId s = EmptyString
   \/ Suppression.errorId s = ErrorMessage.errorId d)
  /\ (Suppression.fileName s = EmptyString
      \/ Suppression.fileName s = ErrorMessage.fileName d)
  /\ ((Suppression.lineNumber s <= 0)%Z
      \/ Suppression.lineNumber s = ErrorMessage.lineNumber d)
  /\ (Suppression.symbolName s = EmptyString
      \/ occurs_in (Suppression.symbolName s ++ nl)%string
                   (ErrorMessage.symbolNames d)).
Proof.
  rewrite isMatch_fst, !andb_true_iff, !orb_true_iff, !empty_iff, !String.eqb_eq,
    find_is_Some_iff, negb_true_iff, Z.ltb_ge, Z.eqb_eq.
  unfold StdString.push_char, nl. tauto.
Qed.

(** A rule whose four fields are empty or not positive matches every
    diagnostic: [isMatch] returns true, and the rule after the call has
    [matched] true and its four other fields as before. *)
Theorem isMatch_unconstrained (s : Suppression.t) (d : ErrorMessage.t) :
  Suppression.errorId s = EmptyString ->
  Suppression.fileName s = EmptyString ->
  (Suppression.lineNumber s <= 0)%Z ->
  Suppression.symbolName s = EmptyString ->
  isMatch s d
  = (true,
     {| Suppression.errorId := Suppression.errorId s;
        Suppression.fileName := Suppression.fileName s;
        Suppression.lineNumber := Suppression.lineNumber s;
        Suppression.symbolName := Suppression.symbolName s;
        Suppression.matched := true |}).
Proof.
  intros Hi Hf Hl Hs.
  change (isMatch s d = (true, Suppression.set_matched true s)).
  apply isMatch_true_marks.
  rewrite isMatch_fst, Hi, Hf, Hs. simpl.
  apply Z.ltb_ge in Hl. now rewrite Hl.
Qed.

Lemma isMatch_unconstrained_witness :
  isMatch Suppression.default nullPointer_a_c_5
  = (true,
     {| Suppression.errorId := EmptyString; Suppression.fileName := EmptyString;
        Suppression.lineNumber := 0%Z; Suppression.symbolName := EmptyString;
        Suppression.matched := true |}).
Proof.
  apply (isMatch_unconstrained Suppression.default nullPointer_a_c_5);
    (reflexivity || (simpl; lia)).
Defined.

(** The id ["*"] is compared like any other id: the rule matches only
    the diagnostics whose own id is ["*"]. *)
Lemma isMatch_star_literal (s : Suppression.t) (d : ErrorMessage.t) :
  Suppression.errorId s = "*" ->
  fst (isMatch s d) = true -> ErrorMessage.errorId d = "*".
Proof.
  intros Hs. rewrite isMatch_fst, Hs, !andb_true_iff.
  change (StdString.empty "*") with false. rewrite orb_false_l.
  intros [[[H _] _] _]. apply String.eqb_eq in H. now symmetry.
Qed.

(** C1. The rule whose id is ["*"] and whose file name, line number and
    symbol name are "any" is accepted by [addSuppression], and yet it does
    not match the diagnostic nullPointer at a.c:5: [isMatch] returns false
    and leaves the rule unmarked, and [isSuppressed] returns false on the
    list that holds the rule. *)
Theorem any_rule_does_not_match :
  addSuppression any_rule no_suppressions
    = (EmptyString, mkSuppressions [any_rule])
  /\ isMatch any_rule nullPointer_a_c_5 = (false, any_rule)
  /\ isSuppressed (mkSuppressions [any_rule]) nullPointer_a_c_5
     = (false, mkSuppressions [any_rule]).
Proof. repeat split. Qed.

(** ** Symbol names *)

Lemma entry_occurs (t cur names : string) :
  In t (symbol_entries_from cur names) ->
  occurs_in (t ++ nl)%string (cur ++ names)%string.
Proof.
  revert cur. induction names as [|c names IH]; intros cur; simpl; [tauto|].
  destruct (Ascii.eqb_spec c newline) as [->|Hc].
  - intros [<-|Hin].
    + exists EmptyString, names. simpl. unfold nl. now rewrite append_assoc.
    + destruct (IH EmptyString Hin) as (pre & post & E). simpl in E.
      exists (cur ++ String newline pre)%string, post.
      rewrite E, (append_assoc cur). reflexivity.
  - intros Hin. destruct (IH _ Hin) as (pre & post & E).
    exists pre, post. rewrite <- E. unfold StdString.push_char.
    now rewrite append_assoc.
Qed.

(** A symbol that is an entry of the symbol list satisfies the symbol
    constraint of [isMatch]. *)
Theorem isMatch_entry (s : Suppression.t) (d : ErrorMessage.t) :
  Suppression.errorId s = EmptyString ->
  Suppression.fileName s = EmptyString ->
  (Suppression.lineNumber s <= 0)%Z ->
  In (Suppression.symbolName s) (symbol_entries (ErrorMessage.symbolNames d)) ->
  fst (isMatch s d) = true.
Proof.
  intros Hi Hf Hl Hin. rewrite isMatch_fst, Hi, Hf. simpl.
  apply Z.ltb_ge in Hl. rewrite Hl. simpl.
  apply orb_true_iff. right. apply find_is_Some_iff.
  apply (entry_occurs _ EmptyString). exact Hin.
Qed.

Lemma isMatch_entry_witness :
  fst (isMatch (Suppression.set_symbolName "foo" Suppression.default)
         (diagnostic_with_symbols ("foo" ++ nl ++ "bar" ++ nl))) = true.
Proof.
  apply (isMatch_entry (Suppression.set_symbolName "foo" Suppression.default)
           (diagnostic_with_symbols ("foo" ++ nl ++ "bar" ++ nl)));
    [reflexivity | reflexivity | simpl; lia | simpl; tauto].
Defined.

(** The two symbol lists of the specification: the rule for foo matches
    ["foo\nbar\n"] and does not match ["foobar\n"]. *)
Example isMatch_symbol_examples :
  fst (isMatch (rule_for_symbol "foo")
         (diagnostic_with_symbols ("foo" ++ nl ++ "bar" ++ nl))) = true
  /\ fst (isMatch (rule_for_symbol "foo")
            (diagnostic_with_symbols ("foobar" ++ nl))) = false.
Proof. split; reflexivity. Qed.

(** C3. The symbol list ["foobar\n"] has the single entry foobar, and
    the rule whose symbol name is bar matches a diagnostic with that
    symbol list all the same: [isMatch] returns true and marks the rule,
    because bar followed by a line feed ends the entry foobar. *)
Theorem symbolName_matches_end_of_entry :
  symbol_entries ("foobar" ++ nl) = ["foobar"]
  /\ isMatch (rule_for_symbol "bar") (diagnostic_with_symbols ("foobar" ++ nl))
     = (true, Suppression.set_matched true (rule_for_symbol "bar")).
Proof. split; reflexivity. Qed.

(** ** [isSuppressed] and [isSuppressedLocal] *)

Lemma isSuppressedLocal_loop_eq (l : list Suppression.t) (d : ErrorMessage.t) :
  isSuppressedLocal_loop l d = isSuppressed_loop l d.
Proof.
  induction l as [|s l IH]; simpl; [reflexivity|].
  destruct (isMatch s d) as [[] s']; [reflexivity | now rewrite IH].
Qed.

Lemma isSuppressed_loop_spec (l : list Suppression.t) (d : ErrorMessage.t) :
  ((forall s, In s l -> fst (isMatch s d) = false)
   /\ isSuppressed_loop l d = (false, l))
  \/ (exists (i : nat) (s : Suppression.t),
        l !! i = Some s
        /\ fst (isMatch s d) = true
        /\ (forall (j : nat) (s' : Suppression.t),
              (j < i)%nat -> l !! j = Some s' -> fst (isMatch s' d) = false)
        /\ isSuppressed_loop l d
           = (true, <[i := Suppression.set_matched true s]> l)).
Proof.
  induction l as [|s l IH]; simpl.
  - left. split; [tauto | reflexivity].
  - destruct (isMatch_cases s d) as [E|E]; rewrite E.
    + destruct IH as [[Hall ->]|(i & s0 & Hi & Hm & Hbefore & ->)].
      * left. split; [|reflexivity].
        intros s1 [<-|Hin]; [now rewrite E | now apply Hall].
      * right. exists (S i), s0. repeat split; try assumption.
        intros [|j] s' Hj Hs'; simpl in Hs'.
        -- injection Hs' as <-. now rewrite E.
        -- apply (Hbefore j); [lia | assumption].
    + right. exists 0%nat, s. repeat split.
      * now rewrite E.
      * intros j s' Hj. lia.
Qed.

(** C9. [isSuppressedLocal] does what [isSuppressed] does.  Either no
    rule of the list matches the diagnostic, the result is false and the
    object is unchanged; or there is a first position whose rule matches,
    the result is true, and the list afterwards is the list before with
    the rule at that position replaced by the rule whose [matched] is true
    and whose four other fields are those it had: the other positions,
    the length and the order are as before. *)
Theorem isSuppressed_marks_first_match (this : Suppressions) (d : ErrorMessage.t) :
  isSuppressedLocal this d = isSuppressed this d
  /\ (((forall s, In s (_suppressions this) -> fst (isMatch s d) = false)
       /\ isSuppressed this d = (false, this))
      \/ (exists (i : nat) (s : Suppression.t),
            _suppressions this !! i = Some s
            /\ fst (isMatch s d) = true
            /\ (forall (j : nat) (s' : Suppression.t),
                  (j < i)%nat -> _suppressions this !! j = Some s' ->
                  fst (isMatch s' d) = false)
            /\ isSuppressed this d
               = (true,
                  mkSuppressions
                    (<[i := {| Suppression.errorId := Suppression.errorId s;
                               Suppression.fileName := Suppression.fileName s;
                               Suppression.lineNumber := Suppression.lineNumber s;
                               Suppression.symbolName := Suppression.symbolName s;
                               Suppression.matched := true |}]>
                       (_suppressions this)))
            /\ length (_suppressions (snd (isSuppressed this d)))
               = length (_suppressions this)
            /\ (forall j : nat,
                  j <> i ->
                  _suppressions (snd (isSuppressed this d)) !! j
                  = _suppressions this !! j)
            /\ (exists s' : Suppression.t,
                  _suppressions (snd (isSuppressed this d)) !! i = Some s'
                  /\ Suppression.matched s' = true
                  /\ Suppression.errorId s' = Suppression.errorId s
                  /\ Suppression.fileName s' = Suppression.fileName s
                  /\ Suppression.lineNumber s' = Suppression.lineNumber s
                  /\ Suppression.symbolName s' = Suppression.symbolName s))).
Proof.
  destruct this as [l]. unfold isSuppressedLocal, isSuppressed. simpl.
  rewrite isSuppressedLocal_loop_eq. split; [reflexivity|].
  destruct (isSuppressed_loop_spec l d) as [[Hall ->]|(i & s & Hi & Hm & Hb & ->)].
  - left. split; [assumption | reflexivity].
  - right. exists i, s. simpl.
    assert (Hlt : (i < length l)%nat) by (eapply lookup_lt_Some; eassumption).
    repeat split; try assumption.
    + apply length_insert.
    + intros j Hne. now apply list_lookup_insert_ne.
    + exists (Suppression.set_matched true s).
      rewrite list_lookup_insert_eq by assumption. repeat split.
Qed.

(** What the marking leaves alone. *)
Lemma isSuppressed_frame (this this' : Suppressions) (d : ErrorMessage.t) (r : bool) :
  isSuppressed this d = (r, this') ->
  length (_suppressions this') = length (_suppressions this)
  /\ forall (j : nat) (s : Suppression.t),
       _suppressions this !! j = Some s ->
       _suppressions this' !! j = Some s
       \/ (r = true /\ Suppression.matched s = false
           /\ _suppressions this' !! j = Some (Suppression.set_matched true s)).
Proof.
  destruct this as [l]. unfold isSuppressed. simpl.
  destruct (isSuppressed_loop_spec l d) as [[Hall ->]|(i & s & Hi & Hm & Hb & ->)];
    intros [= <- <-]; simpl.
  - split; [reflexivity | intros j s Hj; now left].
  - split; [apply length_insert|].
    intros j s0 Hj. destruct (Nat.eq_dec i j) as [<-|Hne].
    + assert (s0 = s) as -> by congruence.
      rewrite list_lookup_insert_eq by (eapply lookup_lt_Some; eassumption).
      destruct (Suppression.matched s) eqn:M.
      * left. f_equal. destruct s; simpl in *; now subst.
      * right. repeat split.
    + left. now rewrite list_lookup_insert_ne.
Qed.

(** ** [addSuppression] *)

Lemma rejected_char (c : ascii) :
  char_lt_0 c || (negb (isalnum c) && negb (Ascii.eqb c "_"))
  = negb (identifier_char c).
Proof. destruct c as [[] [] [] [] [] [] [] []]; vm_compute; reflexivity. Qed.

Lemma leading_digit (c : ascii) :
  identifier_char c = true -> isdigit c = negb (identifier_start c).
Proof. destruct c as [[] [] [] [] [] [] [] []]; vm_compute; congruence. Qed.

Lemma rejects_later (pos : nat) (chars : string) :
  addSuppression_rejects (S pos) chars = negb (all_chars identifier_char chars).
Proof.
  revert pos. induction chars as [|c chars IH]; intros pos; simpl; [reflexivity|].
  rewrite rejected_char, IH.
  destruct (identifier_char c); reflexivity.
Qed.

Lemma rejects_from_start (id : string) :
  id <> EmptyString ->
  addSuppression_rejects 0 id = negb (is_identifier id).
Proof.
  destruct id as [|c chars]; [congruence | intros _; simpl].
  rewrite rejected_char, rejects_later.
  destruct (identifier_char c) eqn:E; simpl.
  - rewrite (leading_digit c E). now destruct (identifier_start c).
  - destruct (identifier_start c) eqn:S; [|reflexivity].
    exfalso. unfold identifier_char, identifier_start in *.
    rewrite S in E. discriminate.
Qed.

Lemma invalid_id_message_contains (id : string) :
  occurs_in id (invalid_id_message id).
Proof.
  exists ("Failed to add suppression. Invalid id " ++ String dquote EmptyString)%string,
         (String dquote EmptyString).
  unfold invalid_id_message. rewrite append_assoc. reflexivity.
Qed.

Lemma invalid_id_message_not_empty (id : string) :
  invalid_id_message id <> EmptyString.
Proof. discriminate. Qed.

Lemma acceptable_id_dec (id : string) :
  {acceptable_id id} + {~ acceptable_id id}.
Proof.
  unfold acceptable_id.
  destruct (String.eqb_spec id "*") as [->|Hne]; [left; now left|].
  destruct (is_identifier id) eqn:E; [left; now right|].
  right. intros [H|H]; congruence.
Qed.

Lemma addSuppression_accepts (s : Suppression.t) (this : Suppressions) :
  acceptable_id (Suppression.errorId s) ->
  addSuppression s this = (EmptyString, push_back s this).
Proof.
  unfold addSuppression, acceptable_id. intros [H|H].
  - rewrite H. reflexivity.
  - destruct (Suppression.errorId s) as [|c chars] eqn:E; [discriminate|].
    simpl StdString.empty. cbv iota.
    rewrite rejects_from_start by discriminate. rewrite H.
    now rewrite andb_false_r.
Qed.

Lemma addSuppression_refuses (s : Suppression.t) (this : Suppressions) :
  ~ acceptable_id (Suppression.errorId s) ->
  exists msg : string,
    addSuppression s this = (msg, this)
    /\ msg <> EmptyString
    /\ occurs_in (Suppression.errorId s) msg.
Proof.
  unfold addSuppression, acceptable_id. intros H.
  destruct (Suppression.errorId s) as [|c chars] eqn:E.
  - exists no_id_message. repeat split; [discriminate|].
    now exists EmptyString, no_id_message.
  - simpl StdString.empty. cbv iota.
    rewrite rejects_from_start by discriminate.
    destruct (String.eqb_spec (String c chars) "*") as [Hs|Hs]; [tauto|].
    destruct (is_identifier (String c chars)) eqn:I; [tauto|]. simpl.
    exists (invalid_id_message (String c chars)). repeat split.
    + apply invalid_id_message_not_empty.
    + apply invalid_id_message_contains.
Qed.

(** C6. [addSuppression] returns the empty string and appends the record
    exactly when the id of the record is ["*"] or an identifier
    [[A-Za-z_][A-Za-z0-9_]*]: the list afterwards is then the list before
    followed by the record.  For every other id it returns a message that
    is not empty and contains the id, and the list is as it was. *)
Theorem addSuppression_validates_id (s : Suppression.t) (this : Suppressions) :
  ((fst (addSuppression s this) = EmptyString
    /\ _suppressions (snd (addSuppression s this)) = _suppressions this ++ [s])
   <-> acceptable_id (Suppression.errorId s))
  /\ (fst (addSuppression s this) = EmptyString
      <-> acceptable_id (Suppression.errorId s))
  /\ (_suppressions (snd (addSuppression s this)) = _suppressions this ++ [s]
      <-> acceptable_id (Suppression.errorId s))
  /\ (~ acceptable_id (Suppression.errorId s) ->
      exists msg : string,
        addSuppression s this = (msg, this)
        /\ msg <> EmptyString
        /\ occurs_in (Suppression.errorId s) msg).
Proof.
  assert (Hgrow : _suppressions this <> _suppressions this ++ [s]).
  { intros H. apply (f_equal (@length _)) in H.
    rewrite length_app in H. simpl in H. lia. }
  destruct (acceptable_id_dec (Suppression.errorId s)) as [Hok|Hno].
  - rewrite (addSuppression_accepts s this Hok). simpl. tauto.
  - destruct (addSuppression_refuses s this Hno) as (msg & E & Hmsg & Hocc).
    rewrite E. simpl. repeat split; try tauto.
    intros _. exists msg. auto.
Qed.

(** The ids of the specification's examples. *)
Example addSuppression_examples :
  fst (addSuppression (Suppression.set_errorId "uninitvar" Suppression.default)
         no_suppressions) = EmptyString
  /\ fst (addSuppression (Suppression.set_errorId "_x9" Suppression.default)
            no_suppressions) = EmptyString
  /\ addSuppression (Suppression.set_errorId "9x" Suppression.default)
       no_suppressions
     = (invalid_id_message "9x", no_suppressions)
  /\ addSuppression (Suppression.set_errorId "a-b" Suppression.default)
       no_suppressions
     = (invalid_id_message "a-b", no_suppressions)
  /\ addSuppression Suppression.default no_suppressions
     = (no_id_message, no_suppressions).
Proof. repeat split. Qed.

(** ** [parseXmlFile] *)

Lemma last_text_init (name : string) (init : option string)
    (es : list tinyxml2.element_ptr) (a : string) :
  or_else (last_text name init es) a
  = or_else (last_text name None es) (or_else init a).
Proof.
  revert init a. induction es as [|e2 es IH]; intros init a; simpl; [reflexivity|].
  destruct (String.eqb (tinyxml2.Name e2) name); [|apply IH].
  rewrite (IH (Some _) a), (IH (Some _) (or_else _ a)). reflexivity.
Qed.

Lemma last_text_map_init (name : string) (init : option string)
    (es : list tinyxml2.element_ptr) (a : Z) :
  or_else (option_map atoi (last_text name init es)) a
  = or_else (option_map atoi (last_text name None es))
            (or_else (option_map atoi init) a).
Proof.
  revert init a. induction es as [|e2 es IH]; intros init a; simpl; [reflexivity|].
  destruct (String.eqb (tinyxml2.Name e2) name); [|apply IH].
  rewrite (IH (Some _) a), (IH (Some _) (or_else _ a)). reflexivity.
Qed.

Lemma record_of_nil (s : Suppression.t) : record_of [] s = s.
Proof. now destruct s. Qed.

Lemma record_of_cons (e2 : tinyxml2.element_ptr)
    (es : list tinyxml2.element_ptr) (s : Suppression.t) :
  record_of (e2 :: es) s = record_of es (parseXmlFile_field e2 s).
Proof.
  unfold record_of, parseXmlFile_field, strcmp_is_zero. simpl last_text.
  fold (text_of e2). generalize (text_of e2). intros text.
  destruct e2 as [name children rest]. simpl tinyxml2.Name.
  destruct (String.eqb_spec name "id") as [->|_];
    [simpl; f_equal; apply last_text_init|].
  destruct (String.eqb_spec name "fileName") as [->|_];
    [simpl; f_equal; apply last_text_init|].
  destruct (String.eqb_spec name "lineNumber") as [->|_];
    [simpl; f_equal; apply last_text_map_init|].
  destruct (String.eqb_spec name "symbolName") as [->|_];
    [simpl; f_equal; apply last_text_init|].
  reflexivity.
Qed.

Lemma parseXmlFile_inner_record (nodes : list tinyxml2.XMLNode) (s : Suppression.t) :
  parseXmlFile_inner nodes s = record_of (tinyxml2.elements nodes) s.
Proof.
  revert s. induction nodes as [|node nodes IH]; intros s; simpl.
  - symmetry. apply record_of_nil.
  - destruct node as [value|value|name children]; simpl; try apply IH.
    now rewrite record_of_cons, IH.
Qed.

Lemma parseXmlFile_outer_add_all (nodes : list tinyxml2.XMLNode) (this : Suppressions) :
  parseXmlFile_outer nodes this
  = add_all (map populated
               (List.filter (fun e => negb (named_suppress e)) (tinyxml2.elements nodes)))
            this.
Proof.
  revert this. induction nodes as [|node nodes IH]; intros this; simpl; [reflexivity|].
  destruct node as [value|value|name children]; simpl; try apply IH.
  unfold strcmp_is_zero, named_suppress. simpl.
  destruct (String.eqb name "suppress"); simpl; [apply IH|].
  rewrite IH. unfold add_all at 2. simpl. unfold populated at 2. simpl.
  now rewrite parseXmlFile_inner_record.
Qed.

Section ParseXmlFileFacts.

Variable LoadFile : string -> tinyxml2.XMLError * tinyxml2.XMLDocument.
Variables (filename : string) (this : Suppressions).
Variables (error : tinyxml2.XMLError) (doc : tinyxml2.XMLDocument).
Hypothesis loaded : LoadFile filename = (error, doc).

Lemma XMLError_eqb_eq (a b : tinyxml2.XMLError) :
  tinyxml2.XMLError_eqb a b = true <-> a = b.
Proof. destruct a, b; simpl; split; congruence. Qed.

(** A missing file: the message is ["File not found"] and the list is
    as it was. *)
Lemma parseXmlFile_not_found :
  error = tinyxml2.XML_ERROR_FILE_NOT_FOUND ->
  parseXmlFile LoadFile filename this = Returns ("File not found", this).
Proof. intros ->. unfold parseXmlFile. now rewrite loaded. Qed.

Lemma parseXmlFile_loaded :
  error <> tinyxml2.XML_ERROR_FILE_NOT_FOUND ->
  parseXmlFile LoadFile filename this
  = match tinyxml2.RootElement doc with
    | None => NullDereference
    | Some rootnode =>
        Returns (EmptyString, parseXmlFile_outer (tinyxml2.Children rootnode) this)
    end.
Proof.
  intros Hne. unfold parseXmlFile. rewrite loaded.
  destruct (tinyxml2.XMLError_eqb error tinyxml2.XML_ERROR_FILE_NOT_FOUND) eqn:E;
    [|reflexivity].
  apply XMLError_eqb_eq in E. contradiction.
Qed.

(** C2. When the document is loaded and has a root element,
    [parseXmlFile] returns the empty string, and the records passed to
    [addSuppression] are, in document order, the records populated from
    the sub-elements of those child elements of the root whose tag name
    is not ["suppress"]: a child named ["suppress"] is skipped, every
    other child is processed. *)
Theorem parseXmlFile_processes_children_not_named_suppress
    (rootnode : tinyxml2.element_ptr) :
  error <> tinyxml2.XML_ERROR_FILE_NOT_FOUND ->
  tinyxml2.RootElement doc = Some rootnode ->
  parseXmlFile LoadFile filename this
  = Returns
      (EmptyString,
       add_all
         (map populated
            (List.filter (fun e => negb (named_suppress e))
               (tinyxml2.elements (tinyxml2.Children rootnode))))
         this).
Proof.
  intros Hne Hroot. rewrite (parseXmlFile_loaded Hne), Hroot.
  now rewrite parseXmlFile_outer_add_all.
Qed.

(** C10. When loading fails with an error other than file-not-found,
    [parseXmlFile] returns no error string: whatever it returns comes
    with the empty string.  When the failed load leaves the document
    without a root element (as for a file that exists and is empty), the
    call does not return at all: it calls [FirstChildElement] through the
    null root pointer. *)
Theorem parseXmlFile_null_root :
  error <> tinyxml2.XML_ERROR_FILE_NOT_FOUND ->
  (forall (msg : string) (this' : Suppressions),
     parseXmlFile LoadFile filename this = Returns (msg, this') ->
     msg = EmptyString)
  /\ (tinyxml2.RootElement doc = None ->
      parseXmlFile LoadFile filename this = NullDereference
      /\ forall r : string * Suppressions,
           parseXmlFile LoadFile filename this <> Returns r).
Proof.
  intros Hne. rewrite (parseXmlFile_loaded Hne). split.
  - destruct (tinyxml2.RootElement doc); [|discriminate].
    intros msg this' [= <- _]. reflexivity.
  - intros ->. split; [reflexivity | discriminate].
Qed.

(** The error branch is the file-not-found branch: a message that is
    not empty is ["File not found"], for that error code only. *)
Lemma parseXmlFile_only_error (msg : string) (this' : Suppressions) :
  parseXmlFile LoadFile filename this = Returns (msg, this') ->
  msg <> EmptyString ->
  error = tinyxml2.XML_ERROR_FILE_NOT_FOUND
  /\ msg = "File not found" /\ this' = this.
Proof.
  unfold parseXmlFile. rewrite loaded.
  destruct (tinyxml2.XMLError_eqb error tinyxml2.XML_ERROR_FILE_NOT_FOUND) eqn:E.
  - intros [= <- <-] _. apply XMLError_eqb_eq in E. auto.
  - destruct (tinyxml2.RootElement doc); [|discriminate].
    intros [= <- _] H. congruence.
Qed.

End ParseXmlFileFacts.

Lemma parseXmlFile_processes_children_not_named_suppress_witness :
  parseXmlFile (loads tinyxml2.XML_SUCCESS sample_document) "suppressions.xml"
    no_suppressions
  = Returns
      (EmptyString,
       mkSuppressions
         [ {| Suppression.errorId := "uninitvar"; Suppression.fileName := "foo.c";
              Suppression.lineNumber := 10%Z; Suppression.symbolName := "x";
              Suppression.matched := false |} ]).
Proof.
  apply (parseXmlFile_processes_children_not_named_suppress
           (loads tinyxml2.XML_SUCCESS sample_document) "suppressions.xml"
           no_suppressions tinyxml2.XML_SUCCESS sample_document eq_refl sample_root);
    [discriminate | reflexivity].
Defined.

Lemma parseXmlFile_null_root_witness :
  (forall (msg : string) (this' : Suppressions),
     parseXmlFile (loads tinyxml2.XML_ERROR_EMPTY_DOCUMENT []) "empty.xml"
       no_suppressions = Returns (msg, this') ->
     msg = EmptyString)
  /\ parseXmlFile (loads tinyxml2.XML_ERROR_EMPTY_DOCUMENT []) "empty.xml"
       no_suppressions = NullDereference.
Proof.
  destruct (parseXmlFile_null_root
              (loads tinyxml2.XML_ERROR_EMPTY_DOCUMENT []) "empty.xml"
              no_suppressions tinyxml2.XML_ERROR_EMPTY_DOCUMENT [] eq_refl)
    as [Hmsg Hnull]; [discriminate|].
  split; [exact Hmsg | exact (proj1 (Hnull eq_refl))].
Defined.

(** C4. The document [dropped_rules_document] holds two rules, one in an
    element named suppress with the id uninitvar and one in another
    element with the id 1bad.  [parseXmlFile] returns the empty string for
    it and the list is still empty: the first rule is skipped, and the
    second one is refused by [addSuppression], whose message is dropped. *)
Theorem parseXmlFile_drops_rules :
  parseXmlFile (loads tinyxml2.XML_SUCCESS dropped_rules_document)
    "suppressions.xml" no_suppressions
  = Returns (EmptyString, no_suppressions)
  /\ addSuppression
       (Suppression.set_fileName "a.c"
          (Suppression.set_errorId "1bad" Suppression.default))
       no_suppressions
     = (invalid_id_message "1bad", no_suppressions).
Proof. split; reflexivity. Qed.

(** ** [addSuppressionLine] *)

(** The two lines of the specification: ["uninitvar:foo.c:10"] gives the
    id uninitvar, the file name foo.c and the line number 10;
    ["uninitvar:C:path.c"] keeps the file name C:path.c and no line
    number. *)
Example addSuppressionLine_examples :
  addSuppressionLine "uninitvar:foo.c:10" no_suppressions
  = (EmptyString,
     mkSuppressions
       [ {| Suppression.errorId := "uninitvar"; Suppression.fileName := "foo.c";
            Suppression.lineNumber := 10%Z; Suppression.symbolName := EmptyString;
            Suppression.matched := false |} ])
  /\ addSuppressionLine "uninitvar:C:path.c" no_suppressions
     = (EmptyString,
        mkSuppressions
          [ {| Suppression.errorId := "uninitvar"; Suppression.fileName := "C:path.c";
               Suppression.lineNumber := 0%Z; Suppression.symbolName := EmptyString;
               Suppression.matched := false |} ]).
Proof. split; reflexivity. Qed.

(** C7. In the line ["uninitvar:foo.c:99999999999"] the text after the
    last colon is a number that does not fit an [int]: its extraction
    fails and stores [INT_MAX].  [addSuppressionLine] tests the stored
    value only, so the rule it adds has the line number 2147483647 and the
    file name foo.c, the text after the colon removed. *)
Theorem addSuppressionLine_number_out_of_range :
  IStringStream.extract_int "99999999999" 0 = (INT_MAX, false)
  /\ addSuppressionLine "uninitvar:foo.c:99999999999" no_suppressions
     = (EmptyString,
        mkSuppressions
          [ {| Suppression.errorId := "uninitvar"; Suppression.fileName := "foo.c";
               Suppression.lineNumber := 2147483647%Z;
               Suppression.symbolName := EmptyString;
               Suppression.matched := false |} ]).
Proof. split; reflexivity. Qed.

(** ** [matchglob] *)

Lemma step_forward_length (c : ascii) (n : string) :
  (String.length (step_forward c n) <= String.length n)%nat.
Proof.
  induction n as [|a n IH]; simpl; [lia|].
  destruct (Ascii.eqb a c); simpl; lia.
Qed.

Lemma next_length (n : string) :
  String.length (next n) = (String.length n - 1)%nat.
Proof. destruct n; simpl; lia. Qed.

Lemma not_at_end (n : string) :
  Ascii.eqb (deref n) NUL = false -> (1 <= String.length n)%nat.
Proof. destruct n; simpl; [discriminate | lia]. Qed.

Lemma pow_ge_1 (B r : nat) : (1 <= B -> 1 <= B ^ r)%nat.
Proof.
  intros HB. induction r as [|r IH]; simpl; [lia | nia].
Qed.

Lemma scan_budget_mono (B : nat) (p : string) (k k' : nat) :
  (k <= k' -> scan_budget B p k <= scan_budget B p k')%nat.
Proof.
  intros Hk. unfold scan_budget. destruct (stars p) as [|r]; [lia|].
  assert ((k + 1) * B ^ r <= (k' + 1) * B ^ r)%nat by nia. lia.
Qed.

Lemma stars_other (c : ascii) (p : string) :
  Ascii.eqb c "*" = false -> stars (String c p) = stars p.
Proof. intros E. simpl. now rewrite E. Qed.

Lemma scan_budget_other (B : nat) (c : ascii) (p : string) (k : nat) :
  Ascii.eqb c "*" = false -> scan_budget B (String c p) k = scan_budget B p k.
Proof. intros E. unfold scan_budget. now rewrite stars_other. Qed.

(** Passing a star: the pair saved there and what the rest of the
    pattern may still save fit the budget of the pattern from the star
    on. *)
Lemma star_budget (L : nat) (p' : string) (k1 k : nat) :
  (k1 <= k)%nat -> (k <= L)%nat ->
  (k1 * S L ^ stars p' + scan_budget (S L) p' k1
   <= scan_budget (S L) (String "*" p') k)%nat.
Proof.
  intros H1 H2. unfold scan_budget. simpl stars.
  destruct (stars p') as [|r] eqn:E.
  - simpl. lia.
  - assert (HX : (1 <= S L ^ r)%nat) by (apply pow_ge_1; lia).
    change (S L ^ S r)%nat with (S L * S L ^ r)%nat.
    set (X := (S L ^ r)%nat) in *.
    assert ((k1 + 1) * X <= S L * X)%nat by nia.
    assert (k1 * (S L * X) + S L * X <= (k + 1) * (S L * X))%nat by nia.
    assert (1 <= (k1 + 1) * X)%nat by nia.
    lia.
Qed.

Lemma scan_bound (L : nat) (p : string) :
  forall (n : string) (backtrack : backtrack_stack),
    (String.length n <= L)%nat ->
    stack_ok L backtrack ->
    stack_ok L (snd (matchglob_scan p n backtrack))
    /\ (String.length (snd (fst (matchglob_scan p n backtrack))) <= String.length n)%nat
    /\ (potential (S L) (snd (matchglob_scan p n backtrack))
        <= potential (S L) backtrack + scan_budget (S L) p (String.length n))%nat.
Proof.
  induction p as [|c p' IH]; intros n backtrack Hn Hok.
  - simpl. repeat split; [assumption | lia | lia].
  - simpl matchglob_scan. destruct (Ascii.eqb c "*") eqn:Estar.
    + apply Ascii.eqb_eq in Estar. subst c.
      pose proof (step_forward_length (deref p') n) as Hstep.
      set (n1 := step_forward (deref p') n) in *.
      pose proof (star_budget L p' (String.length n1) (String.length n) Hstep Hn) as Hbud.
      destruct (Ascii.eqb (deref n1) NUL) eqn:Eend; simpl negb; cbv iota.
      * destruct (IH n1 backtrack ltac:(lia) Hok) as (H1 & H2 & H3).
        repeat split; [assumption | lia | lia].
      * assert (Hok' : stack_ok L ((String "*" p', n1) :: backtrack)).
        { constructor; [|assumption]. split; [now exists p'|].
          simpl. apply not_at_end in Eend. lia. }
        destruct (IH n1 _ ltac:(lia) Hok') as (H1 & H2 & H3).
        repeat split; [assumption | lia |].
        simpl potential in H3. unfold entry_weight in H3. simpl fst in H3.
        simpl snd in H3. simpl stars in H3.
        replace (S (stars p') - 1)%nat with (stars p') in H3 by lia. lia.
    + rewrite (scan_budget_other _ _ _ _ Estar).
      pose proof (next_length n) as Hnext.
      pose proof (scan_budget_mono (S L) p' (String.length (next n)) (String.length n)
                    ltac:(lia)) as Hmono.
      destruct (Ascii.eqb c "?").
      * destruct (Ascii.eqb (deref n) NUL); simpl negb; cbv iota.
        -- simpl. repeat split; [assumption | lia | lia].
        -- destruct (IH (next n) backtrack ltac:(lia) Hok) as (H1 & H2 & H3).
           repeat split; [assumption | lia | lia].
      * destruct (Ascii.eqb (deref n) c).
        -- destruct (IH (next n) backtrack ltac:(lia) Hok) as (H1 & H2 & H3).
           repeat split; [assumption | lia | lia].
        -- simpl. repeat split; [assumption | lia | lia].
Qed.

Lemma matchglob_loop_returns (L : nat) (rounds : nat) :
  forall (p n : string) (backtrack : backtrack_stack),
    (String.length n <= L)%nat ->
    stack_ok L backtrack ->
    (potential (S L) backtrack + scan_budget (S L) p (String.length n) + 1
     <= rounds)%nat ->
    exists result : bool, matchglob_loop rounds p n backtrack = Some result.
Proof.
  induction rounds as [|rounds IH]; intros p n backtrack Hn Hok Hm; [lia|].
  simpl. destruct (scan_bound L p n backtrack Hn Hok) as (H1 & H2 & H3).
  destruct (matchglob_scan p n backtrack) as [[matching n1] backtrack1].
  simpl in H1, H2, H3.
  destruct (matching && Ascii.eqb (deref n1) NUL); [now exists true|].
  destruct backtrack1 as [|[p0 n0] backtrack2]; [now exists false|].
  inversion H1 as [|e l Hentry Hrest]; subst.
  destruct Hentry as ([p0' Hp0] & Hlo & Hhi). simpl in Hp0, Hlo, Hhi. subst p0.
  apply IH; [rewrite next_length; lia | assumption |].
  simpl potential in H3. unfold entry_weight in H3. simpl fst in H3.
  simpl snd in H3. simpl stars in H3.
  replace (S (stars p0') - 1)%nat with (stars p0') in H3 by lia.
  unfold scan_budget. simpl stars. rewrite next_length.
  assert (HX : (1 <= S L ^ stars p0')%nat) by (apply pow_ge_1; lia).
  set (X := (S L ^ stars p0')%nat) in *.
  replace (String.length n0 - 1 + 1)%nat with (String.length n0) by lia.
  assert (1 <= String.length n0 * X)%nat by nia.
  lia.
Qed.

Lemma matchglob_loop_more_rounds (rounds rounds' : nat) :
  forall (p n : string) (backtrack : backtrack_stack) (result : bool),
    matchglob_loop rounds p n backtrack = Some result ->
    (rounds <= rounds')%nat ->
    matchglob_loop rounds' p n backtrack = Some result.
Proof.
  revert rounds'. induction rounds as [|rounds IH];
    intros rounds' p n backtrack result; [discriminate|].
  destruct rounds' as [|rounds']; [lia|]. simpl.
  destruct (matchglob_scan p n backtrack) as [[matching n1] backtrack1].
  destruct (matching && Ascii.eqb (deref n1) NUL); [now intros|].
  destruct backtrack1 as [|[p0 n0] backtrack2]; [now intros|].
  intros H Hle. apply IH; [assumption | lia].
Qed.

Lemma matchglob_result_is_Some (pattern name : string) :
  exists result : bool, matchglob_result pattern name = Some result.
Proof.
  unfold matchglob_result, matchglob_within, matchglob_rounds.
  apply (matchglob_loop_returns (String.length (c_str name)));
    [lia | constructor |].
  simpl potential. unfold scan_budget.
  destruct (stars (c_str pattern)) as [|r]; simpl Nat.pow; [lia|].
  assert (HX : (1 <= S (String.length (c_str name)) ^ r)%nat)
    by (apply pow_ge_1; lia).
  nia.
Qed.

(** [matchglob] returns: the rounds of [matchglob_rounds] are enough for
    every pattern and name, and [matchglob] is the value returned. *)
Theorem matchglob_returns (pattern name : string) :
  matchglob_result pattern name = Some (matchglob pattern name).
Proof.
  unfold matchglob.
  destruct (matchglob_result_is_Some pattern name) as [result ->]. reflexivity.
Qed.

(** The result does not depend on the bound on the rounds: a run within
    any number of rounds that returns gives the value of [matchglob]. *)
Theorem matchglob_within_stable (rounds : nat) (pattern name : string) (result : bool) :
  matchglob_within rounds pattern name = Some result ->
  matchglob pattern name = result.
Proof.
  intros H. destruct (matchglob_result_is_Some pattern name) as [r Hret].
  unfold matchglob. rewrite Hret.
  unfold matchglob_result, matchglob_within in *.
  destruct (Nat.le_ge_cases rounds (matchglob_rounds pattern name)) as [Hle|Hle].
  - rewrite (matchglob_loop_more_rounds _ _ _ _ _ _ H Hle) in Hret. congruence.
  - rewrite (matchglob_loop_more_rounds _ _ _ _ _ _ Hret Hle) in H. congruence.
Qed.

Lemma matchglob_within_stable_witness :
  matchglob "*.cpp" "foo.cpp.bak" = false.
Proof.
  apply (matchglob_within_stable 3 "*.cpp" "foo.cpp.bak" false). reflexivity.
Defined.

(** C8. [matchglob] returns, and returns the value the specification
    lists, for each of its seven pairs of a pattern and a name. *)
Theorem matchglob_vectors :
  matchglob_result "*.cpp" "foo.cpp" = Some true
  /\ matchglob_result "*.cpp" "foo.cpp.bak" = Some false
  /\ matchglob_result "a?c" "abc" = Some true
  /\ matchglob_result "a?c" "ac" = Some false
  /\ matchglob_result "**" "anything" = Some true
  /\ matchglob_result "*" EmptyString = Some true
  /\ matchglob_result "abc" "abcd" = Some false.
Proof. repeat split; vm_compute; reflexivity. Qed.

(** ** The line format in general *)

Lemma read_until_found (delim : ascii) (a b : string) :
  char_in delim a = false ->
  IStringStream.read_until delim (a ++ String delim b) = (a, Some b).
Proof.
  induction a as [|c a IH]; simpl.
  - intros _. now rewrite Ascii.eqb_refl.
  - rewrite (Ascii.eqb_sym delim c). destruct (Ascii.eqb c delim); [discriminate|].
    simpl. intros H. now rewrite (IH H).
Qed.

Lemma read_until_not_found (delim : ascii) (a : string) :
  char_in delim a = false ->
  IStringStream.read_until delim a = (a, None).
Proof.
  induction a as [|c a IH]; simpl; [reflexivity|].
  rewrite (Ascii.eqb_sym delim c). destruct (Ascii.eqb c delim); [discriminate|].
  simpl. intros H. now rewrite (IH H).
Qed.

Lemma char_in_app (c : ascii) (a b : string) :
  char_in c (a ++ b) = char_in c a || char_in c b.
Proof.
  induction a as [|x a IH]; simpl; [reflexivity|].
  rewrite IH. now rewrite orb_assoc.
Qed.

Lemma rfind_char_None (s : string) (c : ascii) :
  StdString.rfind_char s c = None <-> char_in c s = false.
Proof.
  induction s as [|a s IH]; simpl; [tauto|].
  rewrite (Ascii.eqb_sym c a).
  destruct (StdString.rfind_char s c) as [i|].
  - split; [discriminate|]. intros H. apply orb_false_iff in H as [_ H].
    apply IH in H. discriminate.
  - destruct (Ascii.eqb a c); simpl; [split; discriminate|].
    split; [intros _; now apply IH | reflexivity].
Qed.

Lemma rfind_char_split (s : string) (c : ascii) (pos : nat) :
  StdString.rfind_char s c = Some pos ->
  exists file tail : string,
    s = (file ++ String c tail)%string
    /\ String.length file = pos /\ char_in c tail = false.
Proof.
  revert pos. induction s as [|a s IH]; intros pos; simpl; [discriminate|].
  destruct (StdString.rfind_char s c) as [i|] eqn:E.
  - intros [= <-]. destruct (IH i eq_refl) as (file & tail & -> & <- & Ht).
    now exists (String a file), tail.
  - destruct (Ascii.eqb_spec a c) as [->|_]; [|discriminate].
    intros [= <-]. exists EmptyString, s. repeat split.
    now apply rfind_char_None.
Qed.

Lemma rfind_char_last (file tail : string) (c : ascii) :
  char_in c tail = false ->
  StdString.rfind_char (file ++ String c tail) c = Some (String.length file).
Proof.
  intros H. induction file as [|a file IH]; simpl.
  - rewrite (proj2 (rfind_char_None tail c) H). now rewrite Ascii.eqb_refl.
  - now rewrite IH.
Qed.

Lemma find_char0_None (s : string) (c : ascii) :
  StdString.find_char0 s c = None <-> char_in c s = false.
Proof.
  induction s as [|a s IH]; simpl; [tauto|].
  rewrite (Ascii.eqb_sym c a). destruct (Ascii.eqb a c); simpl.
  - split; discriminate.
  - rewrite <- IH. destruct (StdString.find_char0 s c); simpl; split; congruence.
Qed.

Lemma substr_app (a b : string) :
  StdString.substr (a ++ b) (String.length a) = b.
Proof. induction a as [|c a IH]; simpl; [now destruct b | assumption]. Qed.

Lemma substr_after (a b : string) (c : ascii) :
  StdString.substr (a ++ String c b) (String.length a + 1) = b.
Proof. induction a as [|x a IH]; simpl; [now destruct b | assumption]. Qed.

Lemma erase_app (a b : string) :
  StdString.erase (a ++ b) (String.length a) = a.
Proof. induction a as [|c a IH]; simpl; [now destruct b | now rewrite IH]. Qed.

Lemma find_char_after (file tail : string) (c d : ascii) :
  c <> d ->
  (StdString.find_char (file ++ String c tail) d (String.length file) = None
   <-> char_in d tail = false).
Proof.
  intros Hne. unfold StdString.find_char. rewrite substr_app. simpl.
  apply Ascii.eqb_neq in Hne. rewrite Hne.
  rewrite <- find_char0_None.
  destruct (StdString.find_char0 tail d); simpl; split; congruence.
Qed.

(** The two calls of [std::getline] on a line that has a colon. *)
Lemma getline_id (id remainder old : string) :
  char_in ":" id = false ->
  IStringStream.getline (IStringStream.of_string (id ++ String ":" remainder)) old ":"
  = (true, id, IStringStream.mk remainder false false).
Proof.
  intros H. unfold IStringStream.getline. simpl.
  now rewrite read_until_found.
Qed.

Lemma getline_rest (remainder old : string) :
  char_in newline remainder = false ->
  remainder <> EmptyString ->
  IStringStream.getline (IStringStream.mk remainder false false) old newline
  = (true, remainder, IStringStream.mk EmptyString true false).
Proof.
  intros H Hne. unfold IStringStream.getline. simpl.
  rewrite read_until_not_found by assumption.
  destruct remainder; [congruence | reflexivity].
Qed.

Lemma getline_nothing (old : string) :
  IStringStream.getline (IStringStream.mk EmptyString false false) old newline
  = (false, EmptyString, IStringStream.mk EmptyString true true).
Proof. reflexivity. Qed.

(** A line without a colon is an id. *)
Theorem addSuppressionLine_id_only (line : string) (this : Suppressions) :
  char_in ":" line = false ->
  addSuppressionLine line this = addSuppression (line_rule line EmptyString 0) this.
Proof.
  intros H. unfold addSuppressionLine, IStringStream.getline. simpl.
  rewrite read_until_not_found by assumption.
  destruct line; reflexivity.
Qed.

(** The line [id:file:tail] where [tail] has no colon and no dot and the
    extraction of an [int] from it stores a positive number [n]: the rule
    has the file name [file] and the line number [n]. *)
Theorem addSuppressionLine_with_line (id file tail : string) (n : Z)
    (this : Suppressions) :
  char_in ":" id = false ->
  char_in newline file = false ->
  char_in newline tail = false ->
  char_in ":" tail = false ->
  char_in "." tail = false ->
  fst (IStringStream.extract_int tail 0) = n ->
  (0 < n)%Z ->
  addSuppressionLine (id ++ colon ++ file ++ colon ++ tail) this
  = addSuppression (line_rule id (fromNativeSeparators file) n) this.
Proof.
  intros Hid Hfile Htail Hcolon Hdot Hn Hpos. unfold colon. simpl append.
  unfold addSuppressionLine. rewrite getline_id by assumption.
  rewrite getline_rest.
  2:{ rewrite char_in_app. simpl. now rewrite Hfile, Htail. }
  2:{ destruct file; discriminate. }
  rewrite rfind_char_last by assumption.
  rewrite (proj2 (find_char_after file tail ":" "." ltac:(discriminate)) Hdot).
  rewrite substr_after. simpl Suppression.lineNumber.
  destruct (IStringStream.extract_int tail 0) as [n' ok]. simpl in Hn. subst n'.
  apply Z.ltb_lt in Hpos. rewrite Hpos. rewrite erase_app. reflexivity.
Qed.

(** The line [id:remainder] where no text after a last colon of
    [remainder] is free of dots and stores a positive number: the rule has
    the whole [remainder] as its file name, and a line number that is not
    positive. *)
Theorem addSuppressionLine_without_line (id remainder : string)
    (this : Suppressions) :
  char_in ":" id = false ->
  char_in newline remainder = false ->
  (forall file tail : string,
     remainder = (file ++ colon ++ tail)%string ->
     char_in ":" tail = false ->
     char_in "." tail = true
     \/ (fst (IStringStream.extract_int tail 0) <= 0)%Z) ->
  exists n : Z,
    (n <= 0)%Z
    /\ addSuppressionLine (id ++ colon ++ remainder) this
       = addSuppression (line_rule id (fromNativeSeparators remainder) n) this.
Proof.
  intros Hid Hnl Hno. unfold colon in *. simpl append.
  unfold addSuppressionLine. rewrite getline_id by assumption.
  destruct (String.eqb_spec remainder EmptyString) as [->|Hne].
  - rewrite getline_nothing. exists 0%Z. split; [lia | reflexivity].
  - rewrite getline_rest by assumption.
    destruct (StdString.rfind_char remainder ":") as [pos|] eqn:E.
    2:{ exists 0%Z. split; [lia | reflexivity]. }
    destruct (rfind_char_split _ _ _ E) as (file & tail & -> & <- & Ht).
    pose proof (find_char_after file tail ":" "." ltac:(discriminate)) as Hdot.
    destruct (StdString.find_char (file ++ String ":" tail) "." (String.length file)).
    { exists 0%Z. split; [lia | reflexivity]. }
    rewrite substr_after. simpl Suppression.lineNumber.
    destruct (Hno file tail eq_refl Ht) as [Hd|Hle].
    + rewrite (proj1 Hdot eq_refl) in Hd. discriminate.
    + destruct (IStringStream.extract_int tail 0) as [n ok]. simpl in Hle.
      exists n. split; [assumption|].
      apply Z.ltb_ge in Hle. rewrite Hle. reflexivity.
Qed.

Lemma addSuppressionLine_id_only_witness :
  addSuppressionLine "uninitvar" no_suppressions
  = addSuppression (line_rule "uninitvar" EmptyString 0) no_suppressions.
Proof.
  apply (addSuppressionLine_id_only "uninitvar" no_suppressions). reflexivity.
Defined.

Lemma addSuppressionLine_with_line_witness :
  addSuppressionLine "uninitvar:foo.c:10" no_suppressions
  = addSuppression (line_rule "uninitvar" "foo.c" 10) no_suppressions.
Proof.
  apply (addSuppressionLine_with_line "uninitvar" "foo.c" "10" 10 no_suppressions);
    (reflexivity || lia).
Defined.

Lemma addSuppressionLine_without_line_witness :
  exists n : Z,
    (n <= 0)%Z
    /\ addSuppressionLine "uninitvar:C:path.c" no_suppressions
       = addSuppression (line_rule "uninitvar" "C:path.c" n) no_suppressions.
Proof.
  apply (addSuppressionLine_without_line "uninitvar" "C:path.c" no_suppressions);
    [reflexivity | reflexivity |].
  intros file tail Heq Ht. left.
  destruct file as [|a [|b file]]; unfold colon in Heq; simpl in Heq.
  - discriminate Heq.
  - injection Heq as _ Heq. subst tail. reflexivity.
  - injection Heq as _ _ Heq.
    assert (Hin : char_in ":" "path.c" = true).
    { rewrite Heq, char_in_app. simpl. apply orb_true_r. }
    discriminate.
Defined.

(** ** [parseFile] *)

Lemma parseFile_lines_skipped (lines : list string) (this : Suppressions) :
  (forall line, In line lines -> skipped_line line) ->
  parseFile_lines lines this = (EmptyString, this).
Proof.
  induction lines as [|line lines IH]; intros H; simpl; [reflexivity|].
  destruct (H line (or_introl eq_refl)) as [->|Hc]; simpl.
  - apply IH. intros l Hl. apply H. now right.
  - rewrite Hc. destruct (StdString.empty line); apply IH;
      intros l Hl; apply H; now right.
Qed.

(** An input whose lines are all empty or comments is read with success
    and adds no rule. *)
Theorem parseFile_nothing_to_add (istr : string) (this : Suppressions) :
  (forall line,
     In line (getlines (replace_cr (join_lines (getlines istr)))) ->
     skipped_line line) ->
  parseFile istr this = (EmptyString, this).
Proof. intros H. unfold parseFile. now apply parseFile_lines_skipped. Qed.

Lemma parseFile_nothing_to_add_witness :
  parseFile comments_only (mkSuppressions [uninitvar_rule])
  = (EmptyString, mkSuppressions [uninitvar_rule]).
Proof.
  apply (parseFile_nothing_to_add comments_only (mkSuppressions [uninitvar_rule])).
  intros line Hin. vm_compute in Hin.
  destruct Hin as [<-|[<-|[<-|[<-|[]]]]]; (now left) || (now right).
Defined.

(** The empty input. *)
Example parseFile_empty (this : Suppressions) :
  parseFile EmptyString this = (EmptyString, this).
Proof. reflexivity. Qed.

(** [parseFile] stops at the first line that is refused and returns its
    message; the rules of the lines before it stay. *)
Example parseFile_stops :
  parseFile ("uninitvar:foo.c:10" ++ nl ++ "9lives" ++ nl ++ "nullPointer" ++ nl)
    no_suppressions
  = (invalid_id_message "9lives", mkSuppressions [line_rule "uninitvar" "foo.c" 10]).
Proof. reflexivity. Qed.

(** ** Witnesses and examples for the matcher and the XML parser *)

(** The rule for nullPointer suppresses the diagnostic nullPointer at
    a.c:5 and is marked; the rule for uninitvar next to it is not
    touched. *)
Example isSuppressed_example :
  isSuppressed (mkSuppressions [uninitvar_rule; nullPointer_rule]) nullPointer_a_c_5
  = (true,
     mkSuppressions [uninitvar_rule; Suppression.set_matched true nullPointer_rule]).
Proof. reflexivity. Qed.

Lemma isSuppressed_frame_witness :
  length [uninitvar_rule; Suppression.set_matched true nullPointer_rule]
  = length [uninitvar_rule; nullPointer_rule]
  /\ forall (j : nat) (s : Suppression.t),
       [uninitvar_rule; nullPointer_rule] !! j = Some s ->
       [uninitvar_rule; Suppression.set_matched true nullPointer_rule] !! j = Some s
       \/ (true = true /\ Suppression.matched s = false
           /\ [uninitvar_rule; Suppression.set_matched true nullPointer_rule] !! j
              = Some (Suppression.set_matched true s)).
Proof.
  apply (isSuppressed_frame
           (mkSuppressions [uninitvar_rule; nullPointer_rule])
           (mkSuppressions [uninitvar_rule; Suppression.set_matched true nullPointer_rule])
           nullPointer_a_c_5 true).
  reflexivity.
Defined.

Lemma parseXmlFile_not_found_witness :
  parseXmlFile (loads tinyxml2.XML_ERROR_FILE_NOT_FOUND []) "missing.xml"
    no_suppressions
  = Returns ("File not found", no_suppressions).
Proof.
  apply (parseXmlFile_not_found
           (loads tinyxml2.XML_ERROR_FILE_NOT_FOUND []) "missing.xml" no_suppressions
           tinyxml2.XML_ERROR_FILE_NOT_FOUND [] eq_refl).
  reflexivity.
Defined.

Lemma parseXmlFile_only_error_witness :
  tinyxml2.XML_ERROR_FILE_NOT_FOUND = tinyxml2.XML_ERROR_FILE_NOT_FOUND
  /\ "File not found" = "File not found" /\ no_suppressions = no_suppressions.
Proof.
  apply (parseXmlFile_only_error
           (loads tinyxml2.XML_ERROR_FILE_NOT_FOUND []) "missing.xml" no_suppressions
           tinyxml2.XML_ERROR_FILE_NOT_FOUND [] eq_refl
           "File not found" no_suppressions);
    [reflexivity | discriminate].
Defined.

(** ** [matchglob] against the meaning of patterns *)

Lemma no_nul_inv (c : ascii) (s : string) :
  no_nul (String c s) -> Ascii.eqb c NUL = false /\ no_nul s.
Proof.
  unfold no_nul. cbn [char_in]. rewrite (Ascii.eqb_sym NUL c).
  intros H. now apply orb_false_iff in H.
Qed.

Lemma no_nul_next (n : string) : no_nul n -> no_nul (next n).
Proof. destruct n as [|a n]; [trivial | intros H; now apply no_nul_inv in H]. Qed.

Lemma no_nul_step_forward (c : ascii) (n : string) :
  no_nul n -> no_nul (step_forward c n).
Proof.
  induction n as [|a n IH]; simpl; [trivial|]. intros H.
  destruct (Ascii.eqb a c); [assumption | apply IH; now apply no_nul_inv in H].
Qed.

Lemma c_str_no_nul (s : string) : no_nul (c_str s).
Proof.
  unfold no_nul. induction s as [|c s IH]; [reflexivity|].
  cbn [c_str]. destruct (Ascii.eqb c NUL) eqn:E; [reflexivity|].
  cbn [char_in]. now rewrite (Ascii.eqb_sym NUL c), E.
Qed.

Lemma at_end_empty (n : string) :
  no_nul n -> Ascii.eqb (deref n) NUL = true -> n = EmptyString.
Proof.
  destruct n as [|a n]; [reflexivity|]. simpl. intros H E.
  apply no_nul_inv in H as [H _]. congruence.
Qed.

Lemma not_at_end_cons (n : string) :
  Ascii.eqb (deref n) NUL = false -> n = String (deref n) (next n).
Proof. destruct n; simpl; [discriminate | reflexivity]. Qed.

Lemma step_forward_suffix (c : ascii) (n : string) :
  exists pre : string, n = (pre ++ step_forward c n)%string.
Proof.
  induction n as [|a n [pre IH]]; simpl; [now exists EmptyString|].
  destruct (Ascii.eqb a c); [now exists EmptyString|].
  exists (String a pre). simpl. now rewrite <- IH.
Qed.

Lemma glob_star_prefix (p pre n : string) :
  glob_match (String "*" p) n -> glob_match (String "*" p) (pre ++ n).
Proof.
  intros H. induction pre as [|a pre IH]; simpl; [assumption|].
  now apply glob_star_more.
Qed.

Lemma glob_empty_pattern (n : string) :
  glob_match EmptyString n -> n = EmptyString.
Proof. intros H. now inversion H. Qed.

Lemma scan_sound (P N p : string) :
  forall (n : string) (backtrack : backtrack_stack),
    sound_position P N p n ->
    Forall (sound_entry P N) backtrack ->
    Forall (sound_entry P N) (snd (matchglob_scan p n backtrack))
    /\ (fst (fst (matchglob_scan p n backtrack)) = true ->
        Ascii.eqb (deref (snd (fst (matchglob_scan p n backtrack)))) NUL = true ->
        glob_match P N).
Proof.
  induction p as [|c p' IH]; intros n backtrack (Hp & Hn & Hreach) Hstack.
  - simpl. split; [assumption|]. intros _ Hend.
    apply Hreach. rewrite (at_end_empty n Hn Hend). constructor.
  - apply no_nul_inv in Hp as [Hc Hp']. simpl matchglob_scan.
    destruct (Ascii.eqb c "*") eqn:Estar.
    + apply Ascii.eqb_eq in Estar. subst c.
      destruct (step_forward_suffix (deref p') n) as [pre Hpre].
      pose proof (no_nul_step_forward (deref p') n Hn) as Hn1.
      set (n1 := step_forward (deref p') n) in *.
      assert (Hstar : glob_match (String "*" p') n1 -> glob_match P N).
      { intros H. apply Hreach. rewrite Hpre. now apply glob_star_prefix. }
      apply IH.
      * repeat split; [assumption | assumption|].
        intros H. apply Hstar. now apply glob_star_none.
      * destruct (Ascii.eqb (deref n1) NUL) eqn:Eend; simpl negb; cbv iota;
          [assumption|].
        constructor; [|assumption].
        unfold sound_entry, sound_position. simpl fst. simpl snd.
        repeat split.
        -- unfold no_nul. simpl. exact Hp'.
        -- now apply no_nul_next.
        -- intros H. apply Hstar. rewrite (not_at_end_cons n1 Eend).
           now apply glob_star_more.
    + destruct (Ascii.eqb c "?") eqn:Eq.
      * apply Ascii.eqb_eq in Eq. subst c.
        destruct (Ascii.eqb (deref n) NUL) eqn:Eend; simpl negb; cbv iota.
        -- simpl. split; [assumption | discriminate].
        -- apply IH; [|assumption].
           repeat split; [assumption | now apply no_nul_next|].
           intros H. apply Hreach. rewrite (not_at_end_cons n Eend).
           now apply glob_question.
      * destruct (Ascii.eqb (deref n) c) eqn:Ec.
        -- apply Ascii.eqb_eq in Ec.
           assert (Eend : Ascii.eqb (deref n) NUL = false) by (now rewrite Ec).
           apply IH; [|assumption].
           repeat split; [assumption | now apply no_nul_next|].
           intros H. apply Hreach. rewrite (not_at_end_cons n Eend), Ec.
           now apply glob_literal.
        -- simpl. split; [assumption | discriminate].
Qed.

Lemma matchglob_loop_sound (P N : string) (rounds : nat) :
  forall (p n : string) (backtrack : backtrack_stack),
    sound_position P N p n ->
    Forall (sound_entry P N) backtrack ->
    matchglob_loop rounds p n backtrack = Some true ->
    glob_match P N.
Proof.
  induction rounds as [|rounds IH]; intros p n backtrack Hpos Hstack; [discriminate|].
  simpl. destruct (scan_sound P N p n backtrack Hpos Hstack) as [Hstack1 Hdone].
  destruct (matchglob_scan p n backtrack) as [[matching n1] backtrack1].
  simpl in Hstack1, Hdone.
  destruct matching; simpl andb.
  - destruct (Ascii.eqb (deref n1) NUL); [intros _; now apply Hdone|].
    destruct backtrack1 as [|[p0 n0] backtrack2]; [discriminate|].
    inversion Hstack1; subst. now apply IH.
  - destruct backtrack1 as [|[p0 n0] backtrack2]; [discriminate|].
    inversion Hstack1; subst. now apply IH.
Qed.

Lemma matchglob_within_sound (rounds : nat) (pattern name : string) :
  matchglob_within rounds pattern name = Some true ->
  glob_match (c_str pattern) (c_str name).
Proof.
  apply matchglob_loop_sound; [|constructor].
  repeat split; [apply c_str_no_nul | apply c_str_no_nul | trivial].
Qed.

(** [matchglob] is sound: when it returns true, the name matches the
    pattern in the usual reading of star and question mark. *)
Theorem matchglob_sound (pattern name : string) :
  matchglob pattern name = true ->
  glob_match (c_str pattern) (c_str name).
Proof.
  unfold matchglob, matchglob_result.
  destruct (matchglob_within (matchglob_rounds pattern name) pattern name)
    as [[]|] eqn:E; try discriminate.
  intros _. eapply matchglob_within_sound; eassumption.
Qed.

Lemma matchglob_sound_witness : glob_match "*.cpp" "foo.cpp".
Proof. apply (matchglob_sound "*.cpp" "foo.cpp"). reflexivity. Defined.

Lemma anchored_stars_inv (c : ascii) (p' : string) :
  anchored_stars (String c p') = true ->
  anchored_stars p' = true
  /\ (Ascii.eqb c "*" = true ->
      p' = EmptyString
      \/ exists d p'', p' = String d p'' /\ literal_char d = true).
Proof.
  simpl. intros H. apply andb_true_iff in H as [Hc Hp']. split; [assumption|].
  intros E. rewrite E in Hc. destruct p' as [|d p'']; [now left|].
  right. now exists d, p''.
Qed.

Lemma literal_head_no_match (d a : ascii) (p n : string) :
  literal_char d = true -> Ascii.eqb a d = false ->
  ~ glob_match (String d p) (String a n).
Proof.
  unfold literal_char. intros Hd Hne H.
  apply andb_true_iff in Hd as [H1 H2].
  inversion H; subst; simpl in *; try discriminate.
  rewrite Ascii.eqb_refl in Hne. discriminate.
Qed.

(** At a star followed by nothing or by a literal character: a match
    from the star on is a match of the rest at the place where the loop
    stops, or a match from the star one character after that place. *)
Lemma star_alternatives (p' : string) :
  (p' = EmptyString \/ exists d p'', p' = String d p'' /\ literal_char d = true) ->
  forall n : string,
    glob_match (String "*" p') n ->
    glob_match p' (step_forward (deref p') n)
    \/ (step_forward (deref p') n <> EmptyString
        /\ glob_match (String "*" p') (next (step_forward (deref p') n))).
Proof.
  intros Hp'. induction n as [|a n IH]; intros H.
  - simpl. left. inversion H; subst; try discriminate; assumption.
  - simpl. destruct (Ascii.eqb a (deref p')) eqn:E.
    + inversion H; subst; try discriminate.
      * now left.
      * right. split; [discriminate | assumption].
    + inversion H; subst; try discriminate.
      * exfalso. destruct Hp' as [->|(d & p'' & -> & Hd)].
        -- match goal with Hm : glob_match EmptyString _ |- _ =>
             apply glob_empty_pattern in Hm; discriminate end.
        -- simpl in E. eapply literal_head_no_match; eassumption.
      * now apply IH.
Qed.

Lemma scan_extends (p : string) :
  forall (n : string) (backtrack : backtrack_stack),
    exists new : backtrack_stack,
      snd (matchglob_scan p n backtrack) = new ++ backtrack.
Proof.
  induction p as [|c p' IH]; intros n backtrack; simpl; [now exists []|].
  destruct (Ascii.eqb c "*").
  - destruct (Ascii.eqb (deref (step_forward (deref p') n)) NUL); simpl negb; cbv iota.
    + apply IH.
    + destruct (IH (step_forward (deref p') n)
                  ((String c p', step_forward (deref p') n) :: backtrack))
        as [new ->].
      exists (new ++ [(String c p', step_forward (deref p') n)]).
      now rewrite <- app_assoc.
  - destruct (Ascii.eqb c "?").
    + destruct (Ascii.eqb (deref n) NUL); simpl negb; cbv iota;
        [now exists [] | apply IH].
    + destruct (Ascii.eqb (deref n) c); [apply IH | now exists []].
Qed.

Lemma alternative_extends (new backtrack : backtrack_stack) :
  alternative backtrack -> alternative (new ++ backtrack).
Proof.
  intros (e & Hin & H). exists e. split; [|assumption].
  apply in_or_app. now right.
Qed.

Lemma scan_anchored (p : string) :
  forall (n : string) (backtrack : backtrack_stack),
    anchored_stars p = true -> no_nul p -> no_nul n ->
    Forall anchored_entry backtrack ->
    Forall anchored_entry (snd (matchglob_scan p n backtrack)).
Proof.
  induction p as [|c p' IH]; intros n backtrack Ha Hp Hn Hstack; [assumption|].
  pose proof (anchored_stars_inv c p' Ha) as [Ha' _].
  pose proof (no_nul_inv c p' Hp) as [_ Hp'].
  simpl matchglob_scan. destruct (Ascii.eqb c "*").
  - pose proof (no_nul_step_forward (deref p') n Hn) as Hn1.
    apply IH; try assumption.
    destruct (Ascii.eqb (deref (step_forward (deref p') n)) NUL); simpl negb;
      cbv iota; [assumption|].
    constructor; [|assumption]. repeat split; assumption.
  - destruct (Ascii.eqb c "?").
    + destruct (Ascii.eqb (deref n) NUL); simpl negb; cbv iota; [assumption|].
      apply IH; try assumption. now apply no_nul_next.
    + destruct (Ascii.eqb (deref n) c); [|assumption].
      apply IH; try assumption. now apply no_nul_next.
Qed.

Lemma scan_complete (p : string) :
  forall (n : string) (backtrack : backtrack_stack),
    anchored_stars p = true -> no_nul p -> no_nul n ->
    glob_match p n ->
    (fst (fst (matchglob_scan p n backtrack)) = true
     /\ Ascii.eqb (deref (snd (fst (matchglob_scan p n backtrack)))) NUL = true)
    \/ alternative (snd (matchglob_scan p n backtrack)).
Proof.
  induction p as [|c p' IH]; intros n backtrack Ha Hp Hn Hmatch.
  - apply glob_empty_pattern in Hmatch. subst n. now left.
  - pose proof (anchored_stars_inv c p' Ha) as [Ha' Hanchor].
    pose proof (no_nul_inv c p' Hp) as [Hc Hp'].
    simpl matchglob_scan. destruct (Ascii.eqb c "*") eqn:Estar.
    + specialize (Hanchor eq_refl). apply Ascii.eqb_eq in Estar. subst c.
      pose proof (no_nul_step_forward (deref p') n Hn) as Hn1.
      destruct (star_alternatives p' Hanchor n Hmatch) as [Hrest|[Hne Hlater]].
      * now apply IH.
      * right. set (n1 := step_forward (deref p') n) in *.
        assert (Eend : Ascii.eqb (deref n1) NUL = false).
        { destruct (Ascii.eqb (deref n1) NUL) eqn:E; [|reflexivity].
          now apply at_end_empty in E. }
        rewrite Eend. simpl negb. cbv iota.
        destruct (scan_extends p' n1 ((String "*" p', n1) :: backtrack)) as [new ->].
        apply alternative_extends. exists (String "*" p', n1).
        split; [now left | assumption].
    + destruct (Ascii.eqb c "?") eqn:Eq.
      * apply Ascii.eqb_eq in Eq. subst c.
        inversion Hmatch; subst; try discriminate.
        apply no_nul_inv in Hn as [Ea Hn']. simpl deref. rewrite Ea.
        simpl negb. cbv iota. now apply IH.
      * inversion Hmatch; subst; try discriminate.
        apply no_nul_inv in Hn as [Ea Hn']. simpl deref.
        rewrite Ascii.eqb_refl. now apply IH.
Qed.

Lemma matchglob_loop_complete (rounds : nat) :
  forall (p n : string) (backtrack : backtrack_stack) (result : bool),
    anchored_stars p = true -> no_nul p -> no_nul n ->
    Forall anchored_entry backtrack ->
    glob_match p n \/ alternative backtrack ->
    matchglob_loop rounds p n backtrack = Some result ->
    result = true.
Proof.
  induction rounds as [|rounds IH];
    intros p n backtrack result Ha Hp Hn Hstack Hfound; [discriminate|].
  simpl.
  pose proof (scan_anchored p n backtrack Ha Hp Hn Hstack) as Hstack1.
  assert (Hfound1 :
    (fst (fst (matchglob_scan p n backtrack)) = true
     /\ Ascii.eqb (deref (snd (fst (matchglob_scan p n backtrack)))) NUL = true)
    \/ alternative (snd (matchglob_scan p n backtrack))).
  { destruct Hfound as [Hm|Halt]; [now apply scan_complete|].
    right. destruct (scan_extends p n backtrack) as [new ->].
    now apply alternative_extends. }
  destruct (matchglob_scan p n backtrack) as [[matching n1] backtrack1].
  simpl in Hstack1, Hfound1.
  destruct (matching && Ascii.eqb (deref n1) NUL) eqn:Edone; [congruence|].
  destruct Hfound1 as [[-> Hend]|(e & Hin & He)].
  { rewrite Hend in Edone. discriminate. }
  destruct backtrack1 as [|[p0 n0] backtrack2]; [contradiction|].
  inversion Hstack1 as [|e0 l (Ha0 & Hp0 & Hn0) Hrest]; subst.
  simpl in Ha0, Hp0, Hn0.
  apply IH; try assumption; [now apply no_nul_next|].
  destruct Hin as [<-|Hin]; [now left|].
  right. now exists e.
Qed.

(** For a pattern in which every star is last or stands before a
    character that is not a wild card, [matchglob] is exact: it returns
    true when, and only when, the name matches the pattern. *)
Theorem matchglob_exact (pattern name : string) :
  anchored_stars (c_str pattern) = true ->
  (matchglob pattern name = true <-> glob_match (c_str pattern) (c_str name)).
Proof.
  intros Ha. split.
  - unfold matchglob, matchglob_result.
    destruct (matchglob_within (matchglob_rounds pattern name) pattern name)
      as [[]|] eqn:E; try discriminate.
    intros _. eapply matchglob_within_sound; eassumption.
  - intros Hmatch. destruct (matchglob_result_is_Some pattern name) as [result E].
    unfold matchglob. rewrite E. unfold matchglob_result, matchglob_within in E.
    eapply matchglob_loop_complete; try eassumption;
      [apply c_str_no_nul | apply c_str_no_nul | constructor | now left].
Qed.

Lemma matchglob_exact_witness :
  matchglob "src/*.c*" "src/a.cpp" = true <-> glob_match "src/*.c*" "src/a.cpp".
Proof. apply (matchglob_exact "src/*.c*" "src/a.cpp"). reflexivity. Defined.

Lemma step_forward_absent (c : ascii) (n : string) :
  char_in c n = false -> step_forward c n = EmptyString.
Proof.
  induction n as [|a n IH]; simpl; [reflexivity|].
  rewrite (Ascii.eqb_sym c a). destruct (Ascii.eqb a c); [discriminate|].
  exact IH.
Qed.

(** A question mark directly after a leading star is looked for in the
    name as a character: on a name without a question mark the pattern
    fails, whatever follows and however long the name is. *)
Theorem matchglob_star_question (rest name : string) :
  char_in "?" (c_str name) = false ->
  matchglob (String "*" (String "?" rest)) name = false.
Proof.
  intros H. apply (matchglob_within_stable 1).
  unfold matchglob_within. cbn [c_str]. simpl Ascii.eqb. cbv iota.
  cbn [matchglob_loop matchglob_scan]. simpl Ascii.eqb. cbv iota.
  cbn [deref]. rewrite (step_forward_absent _ _ H). reflexivity.
Qed.

Lemma matchglob_star_question_witness : matchglob "*?" "a" = false.
Proof. apply (matchglob_star_question EmptyString "a"). reflexivity. Defined.

(** Two stars at the start of a pattern, followed by another character:
    the first star looks for a star in the name, so on a name without one
    the pattern fails. *)
Theorem matchglob_double_star (c : ascii) (rest name : string) :
  Ascii.eqb c "*" = false ->
  Ascii.eqb c NUL = false ->
  char_in "*" (c_str name) = false ->
  matchglob (String "*" (String "*" (String c rest))) name = false.
Proof.
  intros Hstar Hnul H. apply (matchglob_within_stable 1).
  unfold matchglob_within. cbn [c_str]. simpl (Ascii.eqb "*" NUL). cbv iota.
  rewrite Hnul.
  cbn [matchglob_loop matchglob_scan]. simpl (Ascii.eqb "*" "*"). cbv iota.
  cbn [deref]. rewrite (step_forward_absent _ _ H).
  cbn [step_forward deref]. simpl (Ascii.eqb NUL NUL). simpl negb. cbv iota.
  cbn [matchglob_scan]. rewrite Hstar.
  rewrite (Ascii.eqb_sym NUL c), Hnul.
  destruct (Ascii.eqb c "?"); reflexivity.
Qed.

Lemma matchglob_double_star_witness : matchglob "**.cpp" "foo.cpp" = false.
Proof.
  apply (matchglob_double_star "." "cpp" "foo.cpp"); reflexivity.
Defined.

(** ** Rules and verdicts *)

Lemma isMatch_matched_irrelevant (b : bool) (s : Suppression.t) (d : ErrorMessage.t) :
  fst (isMatch (Suppression.set_matched b s) d) = fst (isMatch s d).
Proof. now rewrite !isMatch_fst. Qed.

Lemma isSuppressed_loop_existsb (l : list Suppression.t) (d : ErrorMessage.t) :
  fst (isSuppressed_loop l d) = existsb (fun s => fst (isMatch s d)) l.
Proof.
  induction l as [|s l IH]; simpl; [reflexivity|].
  destruct (isMatch_cases s d) as [E|E]; rewrite E; simpl; [|reflexivity].
  destruct (isSuppressed_loop l d). exact IH.
Qed.

Lemma isSuppressed_loop_marks (l : list Suppression.t) (d : ErrorMessage.t) :
  Forall2 (fun s s' => s' = s \/ s' = Suppression.set_matched true s)
          l (snd (isSuppressed_loop l d)).
Proof.
  induction l as [|s l IH]; simpl; [constructor|].
  destruct (isMatch_cases s d) as [E|E]; rewrite E; simpl.
  - destruct (isSuppressed_loop l d). simpl in *. constructor; [now left | exact IH].
  - constructor; [now right|]. clear. induction l; constructor; [now left | assumption].
Qed.

Lemma existsb_marks (l l' : list Suppression.t) (d : ErrorMessage.t) :
  Forall2 (fun s s' => s' = s \/ s' = Suppression.set_matched true s) l l' ->
  existsb (fun s => fst (isMatch s d)) l' = existsb (fun s => fst (isMatch s d)) l.
Proof.
  induction 1 as [|s s' l l' [->| ->] _ IH]; simpl; [reflexivity | now rewrite IH|].
  now rewrite isMatch_matched_irrelevant, IH.
Qed.

(** The verdict on a diagnostic does not depend on the diagnostics
    tested before it: marking rules as matched changes no result. *)
Theorem isSuppressed_verdict_independent (this : Suppressions)
    (d d' : ErrorMessage.t) :
  fst (isSuppressed (snd (isSuppressed this d)) d') = fst (isSuppressed this d').
Proof.
  destruct this as [l]. unfold isSuppressed. simpl.
  pose proof (isSuppressed_loop_marks l d) as Hm.
  destruct (isSuppressed_loop l d) as [r l1]. simpl in *.
  pose proof (isSuppressed_loop_existsb l1 d') as H1.
  pose proof (isSuppressed_loop_existsb l d') as H2.
  destruct (isSuppressed_loop l1 d'), (isSuppressed_loop l d'). simpl in *.
  rewrite H1, H2. now apply existsb_marks.
Qed.

Lemma isSuppressed_loop_again (l : list Suppression.t) (d : ErrorMessage.t) :
  isSuppressed_loop (snd (isSuppressed_loop l d)) d = isSuppressed_loop l d.
Proof.
  induction l as [|s l IH]; simpl; [reflexivity|].
  destruct (isMatch_cases s d) as [E|E]; rewrite E.
  - destruct (isSuppressed_loop l d) as [r l1] eqn:El. simpl in *.
    rewrite E, IH. reflexivity.
  - simpl.
    assert (Em : fst (isMatch (Suppression.set_matched true s) d) = true).
    { rewrite isMatch_matched_irrelevant. now rewrite E. }
    rewrite (isMatch_true_marks _ _ Em). reflexivity.
Qed.

(** Testing the same diagnostic a second time gives the same result and
    changes nothing more. *)
Theorem isSuppressed_again (this : Suppressions) (d : ErrorMessage.t) :
  isSuppressed (snd (isSuppressed this d)) d = isSuppressed this d.
Proof.
  destruct this as [l]. unfold isSuppressed. simpl.
  pose proof (isSuppressed_loop_again l d) as H.
  destruct (isSuppressed_loop l d) as [r l1]. simpl in *. now rewrite H.
Qed.

(** Adding a rule and asking: once [addSuppression] has accepted a rule,
    a diagnostic is suppressed exactly when it was suppressed before or
    the new rule matches it. *)
Theorem addSuppression_then_isSuppressed (s : Suppression.t)
    (this : Suppressions) (d : ErrorMessage.t) :
  acceptable_id (Suppression.errorId s) ->
  fst (isSuppressed (snd (addSuppression s this)) d)
  = fst (isSuppressed this d) || fst (isMatch s d).
Proof.
  intros Hok. rewrite (addSuppression_accepts s this Hok).
  destruct this as [l]. unfold isSuppressed, push_back. simpl.
  pose proof (isSuppressed_loop_existsb (l ++ [s]) d) as H1.
  pose proof (isSuppressed_loop_existsb l d) as H2.
  destruct (isSuppressed_loop (l ++ [s]) d), (isSuppressed_loop l d). simpl in *.
  rewrite H1, H2, existsb_app. simpl. now rewrite orb_false_r.
Qed.

Lemma addSuppression_then_isSuppressed_witness :
  fst (isSuppressed (snd (addSuppression nullPointer_rule
                            (mkSuppressions [uninitvar_rule])))
         nullPointer_a_c_5)
  = fst (isSuppressed (mkSuppressions [uninitvar_rule]) nullPointer_a_c_5)
    || fst (isMatch nullPointer_rule nullPointer_a_c_5).
Proof.
  apply (addSuppression_then_isSuppressed nullPointer_rule
           (mkSuppressions [uninitvar_rule]) nullPointer_a_c_5).
  right. reflexivity.
Defined.

(** ** [parseFile] as a composition *)

Lemma parseFile_lines_app (l1 l2 : list string) (this : Suppressions) :
  parseFile_lines (l1 ++ l2) this
  = and_then (parseFile_lines l1 this) (parseFile_lines l2).
Proof.
  revert this. induction l1 as [|line l1 IH]; intros this; simpl; [reflexivity|].
  destruct (StdString.empty line); [apply IH|].
  destruct (is_comment_line line); [apply IH|].
  destruct (addSuppressionLine line this) as [errmsg this'].
  destruct (StdString.empty errmsg) eqn:E; simpl; [apply IH|].
  unfold and_then. simpl. now rewrite E.
Qed.

Lemma parseFile_lines_empty_last (l : list string) (this : Suppressions) :
  parseFile_lines (l ++ [EmptyString]) this = parseFile_lines l this.
Proof.
  rewrite parseFile_lines_app. unfold and_then.
  destruct (parseFile_lines l this) as [errmsg this']. simpl.
  destruct errmsg; reflexivity.
Qed.

Lemma getlines_nil (s : string) : getlines s = [] -> s = EmptyString.
Proof.
  destruct s as [|c s]; [reflexivity|]. simpl.
  destruct (Ascii.eqb c newline); [discriminate|].
  destruct (getlines s); discriminate.
Qed.

Lemma join_getlines (s : string) :
  join_lines (getlines s) = s \/ join_lines (getlines s) = (s ++ nl)%string.
Proof.
  induction s as [|c s IH]; [now left|]. simpl.
  destruct (Ascii.eqb_spec c newline) as [->|Hc].
  - simpl. destruct IH as [-> | ->]; [now left | now right].
  - destruct (getlines s) as [|line lines] eqn:E.
    + apply getlines_nil in E. subst s. now right.
    + assert (Hcons : join_lines (String c line :: lines)
                      = String c (join_lines (line :: lines))) by reflexivity.
      rewrite Hcons. destruct IH as [-> | ->]; [now left | now right].
Qed.

Lemma replace_cr_app (a b : string) :
  replace_cr (a ++ b) = (replace_cr a ++ replace_cr b)%string.
Proof. induction a as [|c a IH]; simpl; [reflexivity | now rewrite IH]. Qed.

Lemma replace_cr_again (s : string) : replace_cr (replace_cr s) = replace_cr s.
Proof.
  induction s as [|c s IH]; simpl; [reflexivity|]. rewrite IH.
  destruct (Ascii.eqb c (ascii_of_nat 13)) eqn:E; [reflexivity | now rewrite E].
Qed.

Lemma getlines_line_feed_last (s : string) :
  getlines (s ++ nl) = getlines s
  \/ getlines (s ++ nl) = getlines s ++ [EmptyString].
Proof.
  induction s as [|c s IH]; [now right|]. simpl.
  destruct (Ascii.eqb c newline).
  - destruct IH as [-> | ->]; [now left | now right].
  - destruct IH as [-> | ->]; [now left|].
    destruct (getlines s); [now left | now right].
Qed.

Lemma getlines_app (a b : string) :
  getlines (a ++ nl ++ b) = getlines (a ++ nl) ++ getlines b.
Proof.
  induction a as [|c a IH]; [reflexivity|].
  change (getlines (String c (a ++ nl ++ b))
          = getlines (String c (a ++ nl)) ++ getlines b).
  cbn [getlines]. destruct (Ascii.eqb c newline); [now rewrite IH|].
  rewrite IH.
  destruct (getlines (a ++ nl)) as [|line lines] eqn:E; [|reflexivity].
  apply getlines_nil in E. destruct a; discriminate.
Qed.

Lemma parseFile_lines_line_feed_last (s : string) (this : Suppressions) :
  parseFile_lines (getlines (s ++ nl)) this = parseFile_lines (getlines s) this.
Proof.
  destruct (getlines_line_feed_last s) as [-> | ->];
    [reflexivity | apply parseFile_lines_empty_last].
Qed.

(** The lines [parseFile] reads are the lines of the input with every
    carriage return turned into a line feed: the line feed that the first
    loop adds after a last line changes nothing. *)
Lemma parseFile_lines_of_input (istr : string) (this : Suppressions) :
  parseFile istr this = parseFile_lines (getlines (replace_cr istr)) this.
Proof.
  unfold parseFile. destruct (join_getlines istr) as [-> | ->]; [reflexivity|].
  rewrite replace_cr_app. apply parseFile_lines_line_feed_last.
Qed.

Lemma cr_as_lf_replace_cr (s : string) : cr_as_lf s = replace_cr s.
Proof.
  unfold cr_as_lf. induction s as [|c s IH]; [reflexivity|].
  cbn [list_ascii_of_string List.map string_of_list_ascii replace_cr].
  now rewrite IH.
Qed.

(** A carriage return is read as a line feed: the input in which every
    carriage return has been turned into a line feed gives the message
    and the rules of the input itself. *)
Theorem parseFile_carriage_return (istr : string) (this : Suppressions) :
  parseFile (cr_as_lf istr) this = parseFile istr this.
Proof.
  rewrite cr_as_lf_replace_cr.
  rewrite !parseFile_lines_of_input.
  rewrite replace_cr_again. reflexivity.
Qed.

(** Two inputs one after the other, a line feed between them: [parseFile]
    reads the first and, when that gives no message, goes on with the
    second from the list it has then; a message of the first is the
    result, and the second is not read. *)
Theorem parseFile_app (a b : string) (this : Suppressions) :
  parseFile (a ++ nl ++ b) this = and_then (parseFile a this) (parseFile b).
Proof.
  rewrite !parseFile_lines_of_input, !replace_cr_app.
  change (replace_cr nl) with nl.
  rewrite getlines_app, parseFile_lines_app, parseFile_lines_line_feed_last.
  unfold and_then. destruct (StdString.empty _); [|reflexivity].
  now rewrite parseFile_lines_of_input.
Qed.

Lemma same_lines_parse (l1 l2 : list string) :
  same_lines l1 l2 ->
  forall this : Suppressions, parseFile_lines l1 this = parseFile_lines l2 this.
Proof.
  intros [[-> ->]|(h & t1 & t2 & -> & -> & H)] this; [reflexivity|]. simpl.
  destruct (StdString.empty h); [apply H|].
  destruct (is_comment_line h); [apply H|].
  destruct (addSuppressionLine h this) as [errmsg this'].
  destruct (negb (StdString.empty errmsg)); [reflexivity | apply H].
Qed.

Lemma same_lines_crlf (s : string) :
  same_lines (getlines (replace_cr (crlf s))) (getlines (replace_cr s)).
Proof.
  induction s as [|c s IH]; [now left|]. right. cbn [crlf].
  destruct (Ascii.eqb_spec c newline) as [->|Hc].
  - exists EmptyString, (EmptyString :: getlines (replace_cr (crlf s))),
           (getlines (replace_cr s)).
    repeat split. intros this. simpl. now apply same_lines_parse.
  - cbn [replace_cr getlines].
    destruct (Ascii.eqb c (ascii_of_nat 13)).
    + simpl. exists EmptyString, (getlines (replace_cr (crlf s))),
                    (getlines (replace_cr s)).
      repeat split. intros this. now apply same_lines_parse.
    + apply Ascii.eqb_neq in Hc. rewrite Hc.
      destruct IH as [[-> ->]|(h & t1 & t2 & -> & -> & H)].
      * exists (String c EmptyString), [], []. repeat split.
      * exists (String c h), t1, t2. repeat split. exact H.
Qed.

(** DOS line ends: the text with a carriage return before every line
    feed is read like the text itself. *)
Theorem parseFile_crlf (istr : string) (this : Suppressions) :
  parseFile (crlf istr) this = parseFile istr this.
Proof.
  rewrite !parseFile_lines_of_input.
  apply same_lines_parse, same_lines_crlf.
Qed.

(** ** What the parsers append *)

Lemma int_of_long_range (v : Z) : in_int_range (int_of_long v).
Proof.
  unfold in_int_range, int_of_long, INT_MIN, INT_MAX.
  pose proof (Z.mod_pos_bound (v + 2147483648) 4294967296 ltac:(lia)). lia.
Qed.

Lemma extract_int_range (s : string) (old : Z) :
  in_int_range old -> in_int_range (fst (IStringStream.extract_int s old)).
Proof.
  unfold IStringStream.extract_int, in_int_range, INT_MIN, INT_MAX. intros Hold.
  destruct (IStringStream.skipws s); [assumption|].
  destruct (IStringStream.signed_digits _) as [v|]; simpl; [|lia].
  destruct (Z.ltb_spec 2147483647 v); simpl; [lia|].
  destruct (Z.ltb_spec v (-2147483648)); simpl; lia.
Qed.

Lemma addSuppression_result (s : Suppression.t) (this : Suppressions) :
  (acceptable_id (Suppression.errorId s)
   /\ addSuppression s this = (EmptyString, push_back s this))
  \/ (exists msg : string, msg <> EmptyString /\ addSuppression s this = (msg, this)).
Proof.
  destruct (acceptable_id_dec (Suppression.errorId s)) as [Hok|Hno].
  - left. split; [assumption | now apply addSuppression_accepts].
  - right. destruct (addSuppression_refuses s this Hno) as (msg & E & Hmsg & _).
    now exists msg.
Qed.

Lemma getline_id_part (line old : string) :
  exists (ok : bool) (stream : IStringStream.t),
    IStringStream.getline (IStringStream.of_string line) old ":"
    = (ok, fst (IStringStream.read_until ":" line), stream).
Proof.
  unfold IStringStream.getline. simpl.
  destruct (IStringStream.read_until ":" line) as [l [rest|]]; simpl; [eauto|].
  destruct l; simpl; eauto.
Qed.

(** The rule that [addSuppressionLine] passes on has the text before the
    first colon as its id, no symbol name, is not marked, and has an [int]
    as its line number. *)
Lemma addSuppressionLine_rule (line : string) (this : Suppressions) :
  exists s : Suppression.t,
    addSuppressionLine line this = addSuppression s this
    /\ Suppression.errorId s = fst (IStringStream.read_until ":" line)
    /\ Suppression.symbolName s = EmptyString
    /\ Suppression.matched s = false
    /\ in_int_range (Suppression.lineNumber s).
Proof.
  unfold addSuppressionLine.
  destruct (getline_id_part line (Suppression.errorId Suppression.default))
    as (ok1 & stream1 & ->).
  assert (H0 : in_int_range 0) by (unfold in_int_range, INT_MIN, INT_MAX; lia).
  destruct ok1.
  2:{ eexists. split; [reflexivity|]. repeat split; apply H0. }
  destruct (IStringStream.getline stream1 _ newline) as [[ok2 file] stream2].
  destruct ok2.
  2:{ eexists. split; [reflexivity|]. repeat split; apply H0. }
  destruct (StdString.rfind_char file ":") as [pos|].
  2:{ eexists. split; [reflexivity|]. repeat split; apply H0. }
  destruct (StdString.find_char file "." pos).
  { eexists. split; [reflexivity|]. repeat split; apply H0. }
  pose proof (extract_int_range (StdString.substr file (pos + 1)) 0 H0) as Hrange.
  simpl Suppression.lineNumber.
  destruct (IStringStream.extract_int _ 0) as [n ok]. simpl in Hrange.
  destruct (0 <? n)%Z; eexists; (split; [reflexivity|]);
    repeat split; apply Hrange.
Qed.

(** A line is accepted or refused by its id alone, the text before the
    first colon: [addSuppressionLine] returns the empty string exactly
    when that text is ["*"] or an identifier.  Then the list afterwards is
    the list before followed by one rule with that id, and otherwise the
    list is as it was. *)
Theorem addSuppressionLine_by_id (line : string) (this : Suppressions) :
  (fst (addSuppressionLine line this) = EmptyString
   <-> acceptable_id (fst (IStringStream.read_until ":" line)))
  /\ (acceptable_id (fst (IStringStream.read_until ":" line)) ->
      exists s : Suppression.t,
        Suppression.errorId s = fst (IStringStream.read_until ":" line)
        /\ _suppressions (snd (addSuppressionLine line this))
           = _suppressions this ++ [s])
  /\ (~ acceptable_id (fst (IStringStream.read_until ":" line)) ->
      snd (addSuppressionLine line this) = this).
Proof.
  destruct (addSuppressionLine_rule line this) as (s & -> & <- & _).
  destruct (acceptable_id_dec (Suppression.errorId s)) as [Hok|Hno].
  - rewrite (addSuppression_accepts s this Hok). simpl.
    repeat split; try tauto. intros _. now exists s.
  - destruct (addSuppression_refuses s this Hno) as (msg & -> & Hmsg & _). simpl.
    repeat split; tauto.
Qed.

Lemma parseFile_lines_appends (lines : list string) (this : Suppressions) :
  exists added : list Suppression.t,
    _suppressions (snd (parseFile_lines lines this)) = _suppressions this ++ added
    /\ Forall parsed_rule added.
Proof.
  revert this. induction lines as [|line lines IH]; intros this; simpl.
  - exists []. split; [now rewrite app_nil_r | constructor].
  - destruct (StdString.empty line); [apply IH|].
    destruct (is_comment_line line); [apply IH|].
    destruct (addSuppressionLine_rule line this) as (s & -> & _ & Hsym & Hm & Hr).
    destruct (addSuppression_result s this) as [[Hok ->]|(msg & Hmsg & ->)].
    + simpl. destruct (IH (push_back s this)) as (added & -> & Hall).
      exists (s :: added). split.
      * simpl. now rewrite <- app_assoc.
      * constructor; [unfold parsed_rule; auto | assumption].
    + destruct msg; [congruence|]. simpl.
      exists []. split; [now rewrite app_nil_r | constructor].
Qed.

(** [parseFile] only appends: the rules that were in the list stay, in
    their order and unchanged, and every rule after them has a valid id,
    no symbol name, is not marked, and has an [int] as line number. *)
Theorem parseFile_appends (istr : string) (this : Suppressions) :
  exists added : list Suppression.t,
    _suppressions (snd (parseFile istr this)) = _suppressions this ++ added
    /\ Forall parsed_rule added.
Proof. unfold parseFile. apply parseFile_lines_appends. Qed.

Lemma acceptable_idb_iff (id : string) :
  acceptable_idb id = true <-> acceptable_id id.
Proof.
  unfold acceptable_idb, acceptable_id.
  now rewrite orb_true_iff, String.eqb_eq.
Qed.

Lemma add_all_filter (records : list Suppression.t) (this : Suppressions) :
  add_all records this
  = mkSuppressions
      (_suppressions this
         ++ List.filter (fun s => acceptable_idb (Suppression.errorId s)) records).
Proof.
  revert this. unfold add_all.
  induction records as [|s records IH]; intros this; simpl.
  - rewrite app_nil_r. now destruct this.
  - rewrite IH. destruct (acceptable_idb (Suppression.errorId s)) eqn:E.
    + apply acceptable_idb_iff in E.
      rewrite (addSuppression_accepts s this E). simpl. now rewrite <- app_assoc.
    + assert (Hno : ~ acceptable_id (Suppression.errorId s)).
      { intros H. apply acceptable_idb_iff in H. congruence. }
      destruct (addSuppression_refuses s this Hno) as (msg & -> & _).
      reflexivity.
Qed.

Lemma atoi_range (s : string) : in_int_range (atoi s).
Proof. apply int_of_long_range. Qed.

Lemma populated_rule (e : tinyxml2.element_ptr) :
  Suppression.matched (populated e) = false
  /\ in_int_range (Suppression.lineNumber (populated e)).
Proof.
  split; [reflexivity|]. unfold populated, record_of. simpl.
  destruct (last_text "lineNumber" None _); simpl;
    [apply atoi_range | unfold in_int_range, INT_MIN, INT_MAX; lia].
Qed.

Section ParseXmlFileAppends.

Variable LoadFile : string -> tinyxml2.XMLError * tinyxml2.XMLDocument.
Variables (filename : string) (this : Suppressions).
Variables (error : tinyxml2.XMLError) (doc : tinyxml2.XMLDocument).
Variable rootnode : tinyxml2.element_ptr.
Hypothesis loaded : LoadFile filename = (error, doc).
Hypothesis found : error <> tinyxml2.XML_ERROR_FILE_NOT_FOUND.
Hypothesis has_root : tinyxml2.RootElement doc = Some rootnode.

(** What [parseXmlFile] appends: with a loaded document that has a root
    element, the list afterwards is the list before followed by the
    records of the children not named suppress whose id is ["*"] or an
    identifier, in document order; a record with another id is dropped
    and no message tells.  Each of these records is not marked and has an
    [int] as line number. *)
Theorem parseXmlFile_appends :
  parseXmlFile LoadFile filename this
  = Returns
      (EmptyString,
       mkSuppressions
         (_suppressions this
            ++ List.filter (fun s => acceptable_idb (Suppression.errorId s))
                 (map populated
                    (List.filter (fun e => negb (named_suppress e))
                       (tinyxml2.elements (tinyxml2.Children rootnode))))))
  /\ Forall (fun s => Suppression.matched s = false
                      /\ in_int_range (Suppression.lineNumber s))
            (map populated
               (List.filter (fun e => negb (named_suppress e))
                  (tinyxml2.elements (tinyxml2.Children rootnode)))).
Proof.
  split.
  - rewrite (parseXmlFile_loaded LoadFile filename this error doc loaded found).
    rewrite has_root. now rewrite parseXmlFile_outer_add_all, add_all_filter.
  - induction (List.filter _ _) as [|e l IH]; simpl; constructor;
      [apply populated_rule | assumption].
Qed.

End ParseXmlFileAppends.

Lemma parseXmlFile_appends_witness :
  parseXmlFile (loads tinyxml2.XML_SUCCESS sample_document) "suppressions.xml"
    (mkSuppressions [nullPointer_rule])
  = Returns
      (EmptyString,
       mkSuppressions [nullPointer_rule; Suppression.mk "uninitvar" "foo.c" 10 "x" false]).
Proof.
  exact (proj1 (parseXmlFile_appends
                  (loads tinyxml2.XML_SUCCESS sample_document) "suppressions.xml"
                  (mkSuppressions [nullPointer_rule]) tinyxml2.XML_SUCCESS
                  sample_document sample_root eq_refl
                  ltac:(discriminate) eq_refl)).
Defined.

Lemma addSuppressionLine_by_id_witness :
  exists s : Suppression.t,
    Suppression.errorId s = "uninitvar"
    /\ _suppressions (snd (addSuppressionLine "uninitvar:foo.c:10" no_suppressions))
       = [] ++ [s].
Proof.
  apply (proj1 (proj2 (addSuppressionLine_by_id "uninitvar:foo.c:10" no_suppressions))).
  right. reflexivity.
Defined.

(** ** Patterns without wild cards, and the messages of [parseFile] *)

Lemma literal_anchored (p : string) :
  all_chars literal_char p = true -> anchored_stars p = true.
Proof.
  induction p as [|c p IH]; simpl; [reflexivity|].
  unfold literal_char at 1. intros H. apply andb_true_iff in H as [Hc Hp].
  apply andb_true_iff in Hc as [Hc _]. apply negb_true_iff in Hc.
  rewrite Hc. now apply IH.
Qed.

Lemma literal_glob_match (p : string) :
  all_chars literal_char p = true ->
  forall n : string, glob_match p n <-> p = n.
Proof.
  induction p as [|c p IH]; simpl; intros H n.
  - split; [intros Hm; symmetry; now apply glob_empty_pattern
           | intros <-; constructor].
  - apply andb_true_iff in H as [Hc Hp]. unfold literal_char in Hc.
    apply andb_true_iff in Hc as [H1 H2]. apply negb_true_iff in H1, H2.
    split.
    + intros Hm. inversion Hm; subst; simpl in *; try discriminate.
      f_equal. now apply IH.
    + intros <-. apply glob_literal; try assumption. now apply IH.
Qed.

(** A pattern without star and question mark matches its own text and
    nothing else. *)
Theorem matchglob_literal (pattern name : string) :
  all_chars literal_char (c_str pattern) = true ->
  (matchglob pattern name = true <-> c_str pattern = c_str name).
Proof.
  intros Hlit. rewrite <- (literal_glob_match _ Hlit). split.
  - unfold matchglob, matchglob_result.
    destruct (matchglob_within (matchglob_rounds pattern name) pattern name)
      as [[]|] eqn:E; try discriminate.
    intros _. eapply matchglob_within_sound; eassumption.
  - intros Hmatch. destruct (matchglob_result_is_Some pattern name) as [result E].
    unfold matchglob. rewrite E. unfold matchglob_result, matchglob_within in E.
    eapply matchglob_loop_complete; try eassumption;
      [now apply literal_anchored | apply c_str_no_nul | apply c_str_no_nul
      | constructor | now left].
Qed.

Lemma matchglob_literal_witness :
  matchglob "a.c" "a.c" = true <-> "a.c" = "a.c".
Proof. apply (matchglob_literal "a.c" "a.c"). reflexivity. Defined.

Lemma addSuppression_message (s : Suppression.t) (this : Suppressions) :
  fst (addSuppression s this) = EmptyString
  \/ fst (addSuppression s this) = no_id_message
  \/ fst (addSuppression s this) = invalid_id_message (Suppression.errorId s).
Proof.
  unfold addSuppression.
  destruct (StdString.empty _); [now right; left|].
  destruct (negb _ && _); [now right; right | now left].
Qed.

Lemma parseFile_lines_message (lines : list string) (this : Suppressions) :
  fst (parseFile_lines lines this) = EmptyString
  \/ fst (parseFile_lines lines this) = no_id_message
  \/ exists line : string,
       In line lines
       /\ fst (parseFile_lines lines this)
          = invalid_id_message (fst (IStringStream.read_until ":" line)).
Proof.
  revert this. induction lines as [|line lines IH]; intros this; simpl; [now left|].
  assert (Hrest : forall this',
    fst (parseFile_lines lines this') = EmptyString
    \/ fst (parseFile_lines lines this') = no_id_message
    \/ exists line0 : string,
         (line = line0 \/ In line0 lines)
         /\ fst (parseFile_lines lines this')
            = invalid_id_message (fst (IStringStream.read_until ":" line0))).
  { intros this'. destruct (IH this') as [H|[H|(l & Hin & H)]]; auto.
    right. right. exists l. auto. }
  destruct (StdString.empty line); [apply Hrest|].
  destruct (is_comment_line line); [apply Hrest|].
  destruct (addSuppressionLine_rule line this) as (s & E & Hid & _).
  pose proof (addSuppression_message s this) as Hmsg.
  rewrite E. destruct (addSuppression s this) as [errmsg this']. simpl in Hmsg.
  destruct (StdString.empty errmsg) eqn:Ee; simpl; [apply Hrest|].
  destruct Hmsg as [->|[->| ->]]; [discriminate | now right; left|].
  right. right. exists line. rewrite Hid. auto.
Qed.

(** The messages of [parseFile]: the empty string, the message for a
    missing id, or the message for an invalid id with the text before the
    first colon of one of the lines of the input between the quotes. *)
Theorem parseFile_message (istr : string) (this : Suppressions) :
  fst (parseFile istr this) = EmptyString
  \/ fst (parseFile istr this) = no_id_message
  \/ exists line : string,
       In line (getlines (replace_cr istr))
       /\ fst (parseFile istr this)
          = invalid_id_message (fst (IStringStream.read_until ":" line)).
Proof. rewrite parseFile_lines_of_input. apply parseFile_lines_message. Qed.
